(** * vanadium/go.lib, bluetooth/bt.c: the Linux Bluetooth access layer

    A shallow embedding of [src/bluetooth/bt.c] and of the properties its
    specification states about it.

    - C integers are [Z]; bytes are [Byte.byte]; a [uint8_t] store wraps
      modulo 256 ([to_uint8]); a read through a [char*] goes through
      [char_to_int], which depends on the signedness of plain [char]
      (class [ABI]).
    - Buffers are [list byte].  An access outside the buffer, a store
      through a null pointer and a failed [assert] are undefined behaviour
      or an abort in C; the model reports them as [Fault].
    - The kernel and the BlueZ library are an oracle ([Kernel]) whose
      answers may depend on everything that happened before; every call
      and its answer is appended to a history of [event]s.
    - A [char*] result is [option]: [None] is [NULL].  Every function
      returns its error string, so [None] is success. *)

From Stdlib Require Import ZArith String Ascii DecimalString Lia.
From Stdlib.Strings Require Import Byte.
From stdpp Require Import base option list.
Local Open Scope Z_scope.

(** ** Outcomes of running a piece of C *)

Inductive outcome (A : Type) : Type :=
| Ret (a : A)   (* the code ran to its end and produced [a] *)
| Fault         (* undefined behaviour or abort *)
| OutOfFuel.    (* the bound on loop iterations or recursion depth was hit *)
Arguments Ret {A} a.
Arguments Fault {A}.
Arguments OutOfFuel {A}.

#[global] Instance outcome_ret : MRet outcome := @Ret.
#[global] Instance outcome_bind : MBind outcome := fun A B f m =>
  match m with
  | Ret a => f a
  | Fault => Fault
  | OutOfFuel => OutOfFuel
  end.

#[global] Instance outcome_fmap : FMap outcome := fun A B f m =>
  match m with
  | Ret a => Ret (f a)
  | Fault => Fault
  | OutOfFuel => OutOfFuel
  end.

Definition returns {A} (m : outcome A) : Prop := ∃ a, m = Ret a.

(** ** Bytes and C integer conversions *)

Class ABI := { char_signed : bool }.
(* plain [char] is signed on x86 and x86-64 Linux, unsigned on ARM Linux *)
Definition abi_x86_64 : ABI := {| char_signed := true |}.
Definition abi_arm : ABI := {| char_signed := false |}.

Definition uint8 (b : byte) : Z := Z.of_N (Byte.to_N b).
Definition int8 (b : byte) : Z :=
  if uint8 b <? 128 then uint8 b else uint8 b - 256.
Definition char_to_int `{ABI} (b : byte) : Z :=
  if char_signed then int8 b else uint8 b.
(* conversion of an integer to [uint8_t] *)
Definition to_uint8 (z : Z) : byte :=
  default x00 (Byte.of_N (Z.to_N (z mod 256))).

(** ** Memory accesses *)

(* [p[i]] *)
Definition load (buf : list byte) (i : Z) : outcome byte :=
  if i <? 0 then Fault
  else match buf !! Z.to_nat i with
       | Some b => Ret b
       | None => Fault
       end.

(* the [n] bytes at [p + i] *)
Definition load_bytes (buf : list byte) (i n : Z) : outcome (list byte) :=
  if (i <? 0) || (n <? 0) || (Z.of_nat (length buf) <? i + n) then Fault
  else Ret (take (Z.to_nat n) (drop (Z.to_nat i) buf)).

(* [p[i] = v] *)
Definition store (buf : list byte) (i : Z) (v : byte) : outcome (list byte) :=
  if (i <? 0) || (Z.of_nat (length buf) <=? i) then Fault
  else Ret (<[Z.to_nat i := v]> buf).

(* [memcpy(&dst[i], src, n)] where [src] holds the [n] bytes copied *)
Definition store_bytes (dst : list byte) (i : Z) (src : list byte)
  : outcome (list byte) :=
  if (i <? 0) || (Z.of_nat (length dst) <? i + Z.of_nat (length src))
  then Fault
  else Ret (take (Z.to_nat i) dst ++ src
            ++ drop (Z.to_nat i + length src) dst).

(* [memcpy(dst, src + i, n)]: [n] is converted to [size_t], so a negative
   [n] asks for more bytes than any object has. *)
Definition memcpy (dst src : list byte) (i n : Z) : outcome (list byte) :=
  if n <? 0 then Fault
  else bytes ← load_bytes src i n; store_bytes dst 0 bytes.

(** ** C strings

    A [char*] argument is given as the bytes found at the pointer; the
    string ends at the first zero byte (or at the end of the list, where
    the terminator then sits). *)

Fixpoint strlen (s : list byte) : nat :=
  match s with
  | [] => 0%nat
  | b :: s' => if Byte.eqb b x00 then 0%nat else S (strlen s')
  end.

(* the characters of the string *)
Definition c_chars (s : list byte) : list byte := take (strlen s) s.

(* reading a string out of a buffer of fixed size: there must be a
   terminator inside the buffer *)
Definition c_string_in (buf : list byte) : outcome (list byte) :=
  if decide (strlen buf < length buf)%nat then Ret (c_chars buf) else Fault.

(** ** Constants of bt.c and of the BlueZ headers it includes *)

Definition EIR_FLAGS : Z := 0x01.
Definition EIR_NAME_SHORT : Z := 0x08.
Definition EIR_NAME_COMPLETE : Z := 0x09.

Definition kTimeoutMs : Z := 1000.
Definition kMaxAddrStrSize : Z := 18.
Definition kMaxLEPayloadSize : Z := 26.
Definition kMaxChannel : Z := 30.
Definition kMaxDevices : Z := 5.
Definition kMaxNameLength : Z := 31.

(* <bluetooth/hci.h> *)
Definition HCI_EVENT_HDR_SIZE : Z := 2.
Definition OGF_LE_CTL : Z := 0x08.
Definition OCF_LE_SET_ADVERTISING_DATA : Z := 0x0008.
Definition LE_SET_ADVERTISING_DATA_CP_SIZE : Z := 32.

(** ** Error strings

    Every error is a string built by [asprintf]; one constructor per
    format string, carrying the values formatted into it. *)

Inductive error : Type :=
| InvalidArgument                       (* "can't pass negative device id for bt_open_device()." *)
| SocketError (errno : Z)               (* "can't open HCI socket:%d[%s]" *)
| DeviceInfoError (errno : Z)           (* "can't get device info:%d[%s]" *)
| OpenError (dev_id errno : Z)          (* "can't open device %d:%d[%s]" *)
| CloseError (dd errno : Z)             (* "can't close device with dd: %d, error: %d[%s]" *)
| NoDeviceAvailable                     (* "can't find an available bluetooth device" *)
| NoChannelAvailable                    (* "can't find an available bluetooth channel" *)
| BindError (sock : Z) (addr : string) (channel errno : Z)
                                        (* "can't bind to socket %d, addr %s, channel %d, error: %d[%s]" *)
| PayloadTooLarge                       (* "payload too big" *)
| CommandFailed (dd status errno : Z)   (* "can't set advertising data for dd: %d, status: %d, error: %d\n" *)
| WrongEventType (subevent : Z).        (* "wrong event type: %d" *)

(* "%d" *)
Definition dec (z : Z) : string := NilZero.string_of_int (Z.to_int z).

Definition message (strerror : Z → string) (e : error) : string :=
  let errno_s n := (dec n ++ "[" ++ strerror n ++ "]")%string in
  match e with
  | InvalidArgument => "can't pass negative device id for bt_open_device()."
  | SocketError n => "can't open HCI socket:" ++ errno_s n
  | DeviceInfoError n => "can't get device info:" ++ errno_s n
  | OpenError d n => "can't open device " ++ dec d ++ ":" ++ errno_s n
  | CloseError d n =>
      "can't close device with dd: " ++ dec d ++ ", error: " ++ errno_s n
  | NoDeviceAvailable => "can't find an available bluetooth device"
  | NoChannelAvailable => "can't find an available bluetooth channel"
  | BindError s a c n =>
      "can't bind to socket " ++ dec s ++ ", addr " ++ a ++ ", channel "
      ++ dec c ++ ", error: " ++ errno_s n
  | PayloadTooLarge => "payload too big"
  | CommandFailed d s n =>
      "can't set advertising data for dd: " ++ dec d ++ ", status: " ++ dec s
      ++ ", error: " ++ dec n ++ String (ascii_of_nat 10) EmptyString
  | WrongEventType s => "wrong event type: " ++ dec s
  end%string.

(* The first argument of [asprintf]: where the new string is to be stored.
   Every function keeps its error in one local, [char* err]. *)
Inductive strp : Type :=
| AddrOfErr    (* [&err] *)
| NullPtr.     (* a null [char**] *)

(* [asprintf(strp, fmt, ...)]: the new value of [err] *)
Definition asprintf (p : strp) (msg : error) : outcome (option error) :=
  match p with
  | AddrOfErr => Ret (Some msg)
  | NullPtr => Fault
  end.

(** ** Bluetooth addresses *)

(* [bdaddr_t]: [uint8_t b[6]] *)
Record bdaddr_t : Type :=
  { b0 : byte; b1 : byte; b2 : byte; b3 : byte; b4 : byte; b5 : byte }.

Definition hex_digit (n : Z) : ascii :=
  default "0"%char
    (list_ascii_of_string "0123456789ABCDEF" !! Z.to_nat n).

(* "%2.2X" *)
Definition hex2 (b : byte) : string :=
  String (hex_digit (uint8 b / 16))
    (String (hex_digit (uint8 b mod 16)) EmptyString).

(* BlueZ's [ba2str]: "%2.2X:%2.2X:%2.2X:%2.2X:%2.2X:%2.2X" applied to
   b[5], b[4], b[3], b[2], b[1], b[0] *)
Definition ba2str (ba : bdaddr_t) : string :=
  (hex2 (b5 ba) ++ ":" ++ hex2 (b4 ba) ++ ":" ++ hex2 (b3 ba) ++ ":"
   ++ hex2 (b2 ba) ++ ":" ++ hex2 (b1 ba) ++ ":" ++ hex2 (b0 ba))%string.

(* the [bdaddr_t] stored at [p + i] *)
Definition load_bdaddr (buf : list byte) (i : Z) : outcome bdaddr_t :=
  a0 ← load buf i; a1 ← load buf (i + 1); a2 ← load buf (i + 2);
  a3 ← load buf (i + 3); a4 ← load buf (i + 4); a5 ← load buf (i + 5);
  Ret {| b0 := a0; b1 := a1; b2 := a2; b3 := a3; b4 := a4; b5 := a5 |}.

(** ** The kernel and the BlueZ library *)

(* what a call returned and the [errno] it left *)
Record sysret : Type := { ret : Z; errno : Z }.

Inductive event : Type :=
| EvSocket (r : sysret)
    (* socket(AF_BLUETOOTH, SOCK_RAW, BTPROTO_HCI) *)
| EvGetDevInfo (sock dev_id : Z) (r : sysret)
    (* ioctl(sock, HCIGETDEVINFO, &di) with di.dev_id = dev_id *)
| EvDevUp (sock dev_id : Z)
    (* ioctl(sock, HCIDEVUP, dev_id) *)
| EvHciOpenDev (dev_id : Z) (r : sysret)
| EvHciDevba (dev_id : Z)
| EvClose (fd : Z)
| EvHciCloseDev (dd : Z) (r : sysret)
| EvBind (sock : Z) (addr : string) (rc_channel : Z) (r : sysret)
    (* str2ba(addr, &a.rc_bdaddr); bind(sock, &a, sizeof(a)) *)
| EvHciSendReq (dd ogf ocf : Z) (cparam : list byte) (r : sysret).

Definition history : Type := list event.

(* Each answer is a function of the history of earlier calls and of the
   arguments.  [k_bind] stands for [str2ba] followed by [bind(2)] and is
   given the textual address. *)
Record Kernel : Type :=
  { k_socket : history → sysret;
    k_getdevinfo : history → Z → Z → sysret * string;   (* di.name *)
    k_hci_open_dev : history → Z → sysret;
    k_hci_devba : history → Z → bdaddr_t;
    k_hci_close_dev : history → Z → sysret;
    k_bind : history → Z → string → Z → sysret;
    k_hci_send_req : history → Z → Z → Z → list byte → sysret * byte
                                                        (* status *) }.

(** ** bt_open_device, lines 38-85 *)

(* the locations behind [dd], [name] and [local_address] *)
Record open_io : Type :=
  { oo_dd : Z; oo_name : option string; oo_local_address : option string }.

Definition bt_open_device (k : Kernel) (dev_id : Z) (io : open_io)
    (h : history) : outcome (option error * open_io * history) :=
  if dev_id <? 0 then
    (* line 46 passes [err] itself, which line 39 set to NULL, where every
       other call passes [&err] *)
    err ← asprintf NullPtr InvalidArgument;
    Ret (err, io, h)
  else
    let r := k_socket k h in
    let h := h ++ [EvSocket r] in
    let sock := ret r in
    if sock <? 0 then
      err ← asprintf AddrOfErr (SocketError (errno r));
      Ret (err, io, h)
    else
      let '(r, di_name) := k_getdevinfo k h sock dev_id in
      let h := h ++ [EvGetDevInfo sock dev_id r] in
      if ret r <? 0 then
        err ← asprintf AddrOfErr (DeviceInfoError (errno r));
        Ret (err, io, h ++ [EvClose sock])
      else
        (* the buffer malloc'ed for the name is one byte short of what
           strcpy writes; the heap is not modelled *)
        let io := {| oo_dd := oo_dd io; oo_name := Some di_name;
                     oo_local_address := oo_local_address io |} in
        let h := h ++ [EvDevUp sock dev_id] in
        let r := k_hci_open_dev k h dev_id in
        let h := h ++ [EvHciOpenDev dev_id r] in
        let io := {| oo_dd := ret r; oo_name := oo_name io;
                     oo_local_address := oo_local_address io |} in
        if oo_dd io <? 0 then
          err ← asprintf AddrOfErr (OpenError dev_id (errno r));
          Ret (err, io, h ++ [EvClose sock])
        else
          let loc_addr := k_hci_devba k h dev_id in
          let h := h ++ [EvHciDevba dev_id] in
          let io := {| oo_dd := oo_dd io; oo_name := oo_name io;
                       oo_local_address := Some (ba2str loc_addr) |} in
          Ret (None, io, h).

(** ** bt_close_device, lines 167-174 *)

Definition bt_close_device (k : Kernel) (dd : Z) (h : history)
  : outcome (option error * history) :=
  let r := k_hci_close_dev k h dd in
  let h := h ++ [EvHciCloseDev dd r] in
  if ret r <? 0 then
    err ← asprintf AddrOfErr (CloseError dd (errno r));
    Ret (err, h)
  else Ret (None, h).

(** ** bt_bind, lines 87-133

    [bt_bind] calls itself from inside both of its loops, handing down the
    caller's two pointers.  The model threads the contents of the two
    locations ([bind_io]) through every call.  [fuel] bounds the depth of
    the recursion and the number of iterations of each loop. *)

Record bind_io : Type := { local_address : option string; channel : Z }.

Section bind_loops.
Context (k : Kernel).
(* the recursive call [bt_bind(sock, local_address, channel)] *)
Variable rec_bt_bind
  : bind_io → history → outcome (option error * bind_io * history).

(* lines 95-110; [dd] and [name] are locals of bt_bind *)
Fixpoint device_loop (fuel : nat) (dev_id dd : Z) (name : option string)
    (io : bind_io) (h : history)
  : outcome (option error * bind_io * history) :=
  match fuel with
  | O => OutOfFuel
  | S fuel =>
    if dev_id <? kMaxDevices then
      '(err, oo, h) ← bt_open_device k dev_id
                        {| oo_dd := dd; oo_name := name;
                           oo_local_address := local_address io |} h;
      let io := {| local_address := oo_local_address oo;
                   channel := channel io |} in
      match err with
      | Some _ =>   (* free(err); continue *)
          device_loop fuel (dev_id + 1) (oo_dd oo) (oo_name oo) io h
      | None =>
          '(_, h) ← bt_close_device k (oo_dd oo) h;
          match local_address io with
          | None => Fault   (* the assert of line 101 *)
          | Some _ =>
              '(err, io, h) ← rec_bt_bind io h;
              match err with
              | Some _ =>
                  (* lines 103-105: the address is freed, the pointer
                     to it and the channel are left as they are *)
                  device_loop fuel (dev_id + 1) (oo_dd oo) (oo_name oo)
                    io h
              | None => Ret (None, io, h)
              end
          end
      end
    else
      err ← asprintf AddrOfErr NoDeviceAvailable;
      Ret (err, io, h)
  end.

(* lines 113-121, from the loop test on; line 113 first sets the
   channel to 1 *)
Fixpoint channel_loop (fuel : nat) (io : bind_io) (h : history)
  : outcome (option error * bind_io * history) :=
  match fuel with
  | O => OutOfFuel
  | S fuel =>
    if channel io <? kMaxChannel then
      '(err, io, h) ← rec_bt_bind io h;
      match err with
      | Some _ =>   (* free(err); continue, then the channel is incremented *)
          channel_loop fuel
            {| local_address := local_address io;
               channel := channel io + 1 |} h
      | None => Ret (None, io, h)
      end
    else
      err ← asprintf AddrOfErr NoChannelAvailable;
      Ret (err, io, h)
  end.
End bind_loops.

Fixpoint bt_bind (fuel : nat) (k : Kernel) (sock : Z) (io : bind_io)
    (h : history) : outcome (option error * bind_io * history) :=
  match fuel with
  | O => OutOfFuel
  | S fuel' =>
    match local_address io with
    | None =>
        (* [dd] is not initialised; it is written before it is read *)
        device_loop k (bt_bind fuel' k sock) fuel 0 0 None io h
    | Some addr =>
        if channel io =? 0 then
          channel_loop (bt_bind fuel' k sock) fuel
            {| local_address := local_address io; channel := 1 |} h
        else
          let rc_channel := uint8 (to_uint8 (channel io)) in
          let r := k_bind k h sock addr rc_channel in
          let h := h ++ [EvBind sock addr rc_channel r] in
          if ret r <? 0 then
            err ← asprintf AddrOfErr
                    (BindError sock addr (channel io) (errno r));
            Ret (err, io, h)
          else Ret (None, io, h)
    end
  end.

(** ** bt_set_le_advertising_payload, lines 235-274 *)

(* [le_set_advertising_data_cp]: [uint8_t length; uint8_t data[31]] *)
Record le_set_advertising_data_cp : Type :=
  { cp_length : byte; cp_data : list byte }.

(* the bytes of the structure, as the request carries them *)
Definition cp_bytes (cp : le_set_advertising_data_cp) : list byte :=
  cp_length cp :: cp_data cp.

(* lines 248-257 *)
Definition fill_adv_data_cp (adv_payload : list byte)
  : outcome le_set_advertising_data_cp :=
  let data := replicate 31 x00 in
  let idx := 0 in
  data ← store data idx (to_uint8 2);
  let idx := idx + 1 in
  data ← store data idx (to_uint8 EIR_FLAGS);
  let idx := idx + 1 in
  data ← store data idx (to_uint8 0x06);
  let idx := idx + 1 in
  data ← store data idx (to_uint8 (Z.of_nat (strlen adv_payload) + 1));
  let idx := idx + 1 in
  data ← store data idx (to_uint8 EIR_NAME_COMPLETE);
  let idx := idx + 1 in
  data ← store_bytes data idx (c_chars adv_payload);
  let idx := idx + Z.of_nat (strlen adv_payload) in
  Ret {| cp_length := to_uint8 idx; cp_data := data |}.

Definition bt_set_le_advertising_payload (k : Kernel) (dd : Z)
    (adv_payload : list byte) (h : history)
  : outcome (option error * history) :=
  if kMaxLEPayloadSize <? Z.of_nat (strlen adv_payload) then
    err ← asprintf AddrOfErr PayloadTooLarge;
    Ret (err, h)
  else
    adv_data_cp ← fill_adv_data_cp adv_payload;
    let cparam :=
      take (Z.to_nat LE_SET_ADVERTISING_DATA_CP_SIZE) (cp_bytes adv_data_cp) in
    let '(r, status) :=
      k_hci_send_req k h dd OGF_LE_CTL OCF_LE_SET_ADVERTISING_DATA cparam in
    let h :=
      h ++ [EvHciSendReq dd OGF_LE_CTL OCF_LE_SET_ADVERTISING_DATA cparam r] in
    if ret r <? 0 then
      err ← asprintf AddrOfErr (CommandFailed dd (uint8 status) (errno r));
      Ret (err, h)
    else Ret (None, h).

(** ** bt_parse_le_meta_event, lines 280-336 *)

(* the locations behind [remote_addr], [remote_name], [rssi] and [done];
   the name is the 31-byte buffer malloc'ed at line 307 *)
Record le_out : Type :=
  { remote_addr : option string;
    remote_name : option (list byte);
    rssi : Z;
    done : Z }.

Definition set_done (v : Z) (o : le_out) : le_out :=
  {| remote_addr := remote_addr o; remote_name := remote_name o;
     rssi := rssi o; done := v |}.
Definition set_remote_addr (v : option string) (o : le_out) : le_out :=
  {| remote_addr := v; remote_name := remote_name o;
     rssi := rssi o; done := done o |}.
Definition set_remote_name (v : option (list byte)) (o : le_out) : le_out :=
  {| remote_addr := remote_addr o; remote_name := v;
     rssi := rssi o; done := done o |}.
Definition set_rssi (v : Z) (o : le_out) : le_out :=
  {| remote_addr := remote_addr o; remote_name := remote_name o;
     rssi := v; done := done o |}.

(* lines 313-334: [ptr] and [end_] are offsets into [data]; [name] is the
   content of the name buffer *)
Fixpoint eir_walk `{ABI} (fuel : nat) (data : list byte) (ptr end_ : Z)
    (name : list byte) : outcome (list byte) :=
  match fuel with
  | O => OutOfFuel
  | S fuel =>
    if ptr <? end_ then
      b ← load data ptr;
      let adv_data_length := char_to_int b in
      let ptr := ptr + 1 in
      if adv_data_length =? 0 then Ret name
      else if end_ <? ptr + adv_data_length then Ret name
      else
        t ← load data ptr;
        let adv_data_type := char_to_int t in
        let ptr := ptr + 1 in
        name ← (if (adv_data_type =? EIR_NAME_SHORT)
                   || (adv_data_type =? EIR_NAME_COMPLETE)
                then
                  if kMaxNameLength <? adv_data_length - 1 then Ret name
                  else memcpy name data ptr (adv_data_length - 1)
                else Ret name);
        eir_walk fuel data (ptr + (adv_data_length - 1)) end_ name
    else Ret name
  end.

Definition bt_parse_le_meta_event `{ABI} (fuel : nat) (data : list byte)
    (out : le_out) : outcome (option error * le_out) :=
  let out := set_done 0 out in
  (* evt_le_meta_event: uint8_t subevent; uint8_t data[0] *)
  let meta_event := 1 + HCI_EVENT_HDR_SIZE in
  subevent ← load data meta_event;
  if uint8 subevent =? 0x01 then
    Ret (None, set_done 1 out)
  else if negb (uint8 subevent =? 0x02) then
    err ← asprintf AddrOfErr (WrongEventType (uint8 subevent));
    Ret (err, out)
  else
    (* le_advertising_info: uint8_t evt_type; uint8_t bdaddr_type;
       bdaddr_t bdaddr; uint8_t length; uint8_t data[0] *)
    let adv_info := meta_event + 1 + 1 in
    bdaddr ← load_bdaddr data (adv_info + 2);
    let out := set_remote_addr (Some (ba2str bdaddr)) out in
    length ← load data (adv_info + 8);
    let adv_data := adv_info + 9 in
    rssi_byte ← load data (adv_data + uint8 length);
    let out := set_rssi (int8 rssi_byte) out in
    let name := replicate (Z.to_nat kMaxNameLength) x00 in
    let ptr := adv_data in
    let end_ := adv_data + uint8 length in
    name ← eir_walk fuel data ptr end_ name;
    Ret (None, set_remote_name (Some name) out).

(** ** Vocabulary of the properties *)

(* The return value recorded by a [bind] event. *)
Definition bind_ret (e : event) : Z :=
  match e with
  | EvBind _ _ _ r => ret r
  | _ => 0
  end.

Definition bind_failed (e : event) : Prop := bind_ret e < 0.

(* [n] consecutive attempts to bind [sock] to [addr], on channels [c],
   [c + 1], ... in this order, each answered by the kernel after the
   attempts before it. *)
Fixpoint bind_attempts (k : Kernel) (sock : Z) (addr : string) (h : history)
    (c : Z) (n : nat) : list event :=
  match n with
  | O => []
  | S n =>
      let e := EvBind sock addr c (k_bind k h sock addr c) in
      e :: bind_attempts k sock addr (h ++ [e]) (c + 1) n
  end.

(* the (address, channel) pairs of the bind attempts of a history *)
Definition bind_targets (h : history) : list (string * Z) :=
  omap (λ e, match e with
             | EvBind _ a c _ => Some (a, c)
             | _ => None
             end) h.

(* the device ids whose info was asked for, in order *)
Definition probed_devices (h : history) : list Z :=
  omap (λ e, match e with
             | EvGetDevInfo _ d _ => Some d
             | _ => None
             end) h.

(* An HCI packet carrying an LE meta event with one advertising report:
   packet type, event code, parameter length, subevent, number of reports,
   then the [le_advertising_info] up to its length byte ... *)
Definition adv_header (plen evt_type bdaddr_type : byte) (bdaddr : bdaddr_t)
    (length_byte : byte) : list byte :=
  [x04; x3e; plen; x02; x01; evt_type; bdaddr_type;
   b0 bdaddr; b1 bdaddr; b2 bdaddr; b3 bdaddr; b4 bdaddr; b5 bdaddr;
   length_byte].

(* ... then its data and the RSSI byte after the data. *)
Definition adv_report (plen evt_type bdaddr_type : byte) (bdaddr : bdaddr_t)
    (eir : list byte) (rssi_byte : byte) : list byte :=
  adv_header plen evt_type bdaddr_type bdaddr
    (to_uint8 (Z.of_nat (length eir)))
  ++ eir ++ [rssi_byte].

(* An EIR record: [len][type][len - 1 bytes of value]. *)
Record eir_record : Type := { r_type : byte; r_value : list byte }.

Definition encode_record (r : eir_record) : list byte :=
  to_uint8 (Z.of_nat (length (r_value r)) + 1) :: r_type r :: r_value r.

Definition encode_records (rs : list eir_record) : list byte :=
  concat (encode_record <$> rs).

(* the largest value of a plain [char] *)
Definition CHAR_MAX `{ABI} : Z := if char_signed then 127 else 255.

(* a byte that reads the same through [char*] and through [uint8_t*] *)
Definition char_ok `{ABI} (b : byte) : Prop := uint8 b ≤ CHAR_MAX.

(* a record whose length byte reads back as its length *)
Definition record_ok `{ABI} (r : eir_record) : Prop :=
  Z.of_nat (length (r_value r)) + 1 ≤ CHAR_MAX.

Definition is_name_type (t : byte) : bool :=
  Byte.eqb t x08 || Byte.eqb t x09.

(* a record the walk copies into the name buffer *)
Definition name_record (r : eir_record) : bool :=
  is_name_type (r_type r) && (length (r_value r) <=? 31)%nat.

(* [memcpy(name, value, |value|)] on a buffer at least that long *)
Definition overlay (value name : list byte) : list byte :=
  value ++ drop (length value) name.

Definition copy_name (name : list byte) (r : eir_record) : list byte :=
  if name_record r then overlay (r_value r) name else name.

(** ** Kernels of the scenarios *)

Definition sys_ok (v : Z) : sysret := {| ret := v; errno := 0 |}.
Definition sys_fail (e : Z) : sysret := {| ret := -1; errno := e |}.

Definition ENODEV : Z := 19.
Definition EADDRINUSE : Z := 98.

(* the address of adapter [dev_id] *)
Definition adapter_bdaddr (dev_id : Z) : bdaddr_t :=
  {| b0 := to_uint8 dev_id; b1 := x00; b2 := x00; b3 := x00; b4 := x00;
     b5 := xaa |}.

(* A machine with [adapters] adapters hci0, hci1, ...; [accepts] tells on
   which address and channel a bind goes through. *)
Definition machine (adapters : Z) (accepts : string → Z → bool) : Kernel :=
  {| k_socket := λ _, sys_ok 3;
     k_getdevinfo := λ _ _ dev_id,
       if dev_id <? adapters then (sys_ok 0, "hci"%string)
       else (sys_fail ENODEV, ""%string);
     k_hci_open_dev := λ _ dev_id,
       if dev_id <? adapters then sys_ok 4 else sys_fail ENODEV;
     k_hci_devba := λ _ dev_id, adapter_bdaddr dev_id;
     k_hci_close_dev := λ _ _, sys_ok 0;
     k_bind := λ _ _ addr c,
       if accepts addr c then sys_ok 0 else sys_fail EADDRINUSE;
     k_hci_send_req := λ _ _ _ _ _, (sys_ok 0, x00) |}.

Definition only (addr : string) (c : Z) : string → Z → bool :=
  λ a c', String.eqb a addr && (c' =? c).

Definition nothing : string → Z → bool := λ _ _, false.

(* two adapters; only channel 5 of the second one is free *)
Definition second_adapter_channel_5 : Kernel :=
  machine 2 (only "AA:00:00:00:00:01" 5).

(* two adapters; only channel 30 of the second one is free *)
Definition second_adapter_channel_30 : Kernel :=
  machine 2 (only "AA:00:00:00:00:01" 30).

(* scenario S5: only channel 4 of AA:BB:CC:DD:EE:FF is free *)
Definition only_channel_4 : Kernel :=
  machine 1 (only "AA:BB:CC:DD:EE:FF" 4).

(* scenario S6: every bind is refused *)
Definition no_channel : Kernel := machine 1 nothing.

Definition no_out : le_out :=
  {| remote_addr := None; remote_name := None; rssi := 0; done := 0 |}.

(* scenario S3; [xx] is the parameter length of the event header *)
Definition s3_packet (xx : byte) : list byte :=
  [x04; x3e; xx; x02; x01; x00; x00;
   x01; x02; x03; x04; x05; x06;
   x08; x07; x09] ++ list_byte_of_string "Sensor" ++ [xc0].

(* an advertising report whose only EIR record claims the length 0xFF and
   the type Complete Local Name *)
Definition long_record_packet : list byte :=
  adv_report x0c x00 x00 (adapter_bdaddr 1) [xff; x09] xc0.

(* the same with a record type that is not a name *)
Definition long_record_packet' : list byte :=
  adv_report x0c x00 x00 (adapter_bdaddr 1) [xff; x00] xc0.

(* a complete name, the flags, then a shortened name *)
Definition two_names : list eir_record :=
  [ {| r_type := x09; r_value := list_byte_of_string "Sensor" |};
    {| r_type := x01; r_value := [x06] |};
    {| r_type := x08; r_value := list_byte_of_string "AB" |} ].

(** ** bt_accept and bt_connect, lines 135-165 *)

(* [asprintf] for the error strings of the functions below *)
Definition asprintf_to {E : Type} (p : strp) (msg : E) : outcome (option E) :=
  match p with
  | AddrOfErr => Ret (Some msg)
  | NullPtr => Fault
  end.

Inductive socket_error : Type :=
| AcceptError (sock errno : Z)
    (* "error accepting connection on socket %d, error: %d[%s]" *)
| ConnectError (remote_address : string) (remote_channel sock errno : Z).
    (* "can't connect to remote address %s and channel %d on socket %d: %d[%s]" *)

Inductive socket_event : Type :=
| EvAccept (sock : Z) (r : sysret) (peer : bdaddr_t)
    (* accept(sock, &remote_addr, &opt); [peer] is remote_addr.rc_bdaddr
       after the call *)
| EvConnect (sock : Z) (addr : string) (rc_channel : Z) (r : sysret).
    (* str2ba(addr, &a.rc_bdaddr); connect(sock, &a, sizeof(a)) *)

Record SocketLayer : Type :=
  { s_accept : list socket_event → Z → sysret * bdaddr_t;
    s_connect : list socket_event → Z → string → Z → sysret }.

(* the locations behind [fd] and [remote_address] *)
Record accept_io : Type := { fd : Z; remote_address : option string }.

Definition bt_accept (s : SocketLayer) (sock : Z) (io : accept_io)
    (h : list socket_event)
  : outcome (option socket_error * accept_io * list socket_event) :=
  let '(r, peer) := s_accept s h sock in
  let h := h ++ [EvAccept sock r peer] in
  let io := {| fd := ret r; remote_address := remote_address io |} in
  if fd io <? 0 then
    err ← asprintf_to AddrOfErr (AcceptError sock (errno r));
    Ret (err, io, h)
  else
    let io := {| fd := fd io; remote_address := Some (ba2str peer) |} in
    Ret (None, io, h).

Definition bt_connect (s : SocketLayer) (sock : Z) (remote_address : string)
    (remote_channel : Z) (h : list socket_event)
  : outcome (option socket_error * list socket_event) :=
  let rc_channel := uint8 (to_uint8 remote_channel) in
  let r := s_connect s h sock remote_address rc_channel in
  let h := h ++ [EvConnect sock remote_address rc_channel r] in
  if ret r <? 0 then
    err ← asprintf_to AddrOfErr
            (ConnectError remote_address remote_channel sock (errno r));
    Ret (err, h)
  else Ret (None, h).

(** ** bt_enable_le_advertising, bt_start_le_advertising and
    bt_stop_le_advertising, lines 176-233 and 276-278 *)

Definition OCF_LE_SET_ADVERTISE_ENABLE : Z := 0x000A.
Definition LE_SET_ADVERTISE_ENABLE_CP_SIZE : Z := 1.

Inductive adv_error : Type :=
| EnableFailed (dd status errno : Z)
    (* "can't enable/disable advertising for dd: %d, status: %d, error: %d" *)
| ParametersFailed (dd status errno : Z).
    (* "can't set advertising params for dd: %d, status: %d, error: %d" *)

(* [le_set_advertise_enable_cp]: [uint8_t enable] *)
Definition bt_enable_le_advertising (k : Kernel) (dd enable : Z) (h : history)
  : outcome (option adv_error * history) :=
  let adv_enable_cp := [to_uint8 enable] in
  let cparam :=
    take (Z.to_nat LE_SET_ADVERTISE_ENABLE_CP_SIZE) adv_enable_cp in
  let '(r, status) :=
    k_hci_send_req k h dd OGF_LE_CTL OCF_LE_SET_ADVERTISE_ENABLE cparam in
  let h :=
    h ++ [EvHciSendReq dd OGF_LE_CTL OCF_LE_SET_ADVERTISE_ENABLE cparam r] in
  if ret r <? 0 then
    err ← asprintf_to AddrOfErr (EnableFailed dd (uint8 status) (errno r));
    Ret (err, h)
  else Ret (None, h).






Definition bt_stop_le_advertising (k : Kernel) (dd : Z) (h : history)
  : outcome (option adv_error * history) :=
  bt_enable_le_advertising k dd 0 h.

(** ** Further vocabulary *)

(* [evs] ends with a bind of [sock], to the address and the channel held
   in [io], that went through *)
Definition ends_bound (sock : Z) (io : bind_io) (evs : list event) : Prop :=
  ∃ addr r pre,
    local_address io = Some addr
    ∧ evs = pre ++ [EvBind sock addr (uint8 (to_uint8 (channel io))) r]
    ∧ 0 ≤ ret r.

Definition is_bind (e : event) : bool :=
  match e with
  | EvBind _ _ _ _ => true
  | _ => false
  end.

(* the descriptors that [hci_open_dev] handed out *)
Definition hci_opened (evs : list event) : list Z :=
  omap (λ e, match e with
             | EvHciOpenDev _ r => if ret r <? 0 then None else Some (ret r)
             | _ => None
             end) evs.

(* the descriptors given to [hci_close_dev] *)
Definition hci_closed (evs : list event) : list Z :=
  omap (λ e, match e with
             | EvHciCloseDev dd _ => Some dd
             | _ => None
             end) evs.

(* the sockets that [socket] handed out *)
Definition sockets_opened (evs : list event) : list Z :=
  omap (λ e, match e with
             | EvSocket r => if ret r <? 0 then None else Some (ret r)
             | _ => None
             end) evs.

(* the descriptors given to [close] *)
Definition sockets_closed (evs : list event) : list Z :=
  omap (λ e, match e with
             | EvClose fd => Some fd
             | _ => None
             end) evs.


(* a controller whose requests time out *)
Definition ETIMEDOUT : Z := 110.
Definition dead_controller : Kernel :=
  {| k_socket := k_socket no_channel;
     k_getdevinfo := k_getdevinfo no_channel;
     k_hci_open_dev := k_hci_open_dev no_channel;
     k_hci_devba := k_hci_devba no_channel;
     k_hci_close_dev := k_hci_close_dev no_channel;
     k_bind := k_bind no_channel;
     k_hci_send_req := λ _ _ _ _ _, (sys_fail ETIMEDOUT, x0c) |}.

(* a socket layer with one peer waiting, that refuses to connect *)
Definition ECONNREFUSED : Z := 111.
Definition one_peer : SocketLayer :=
  {| s_accept := λ _ _, (sys_ok 5, adapter_bdaddr 2);
     s_connect := λ _ _ _ _, sys_fail ECONNREFUSED |}.

(* a socket layer on which accept fails *)
Definition EBADF : Z := 9.
Definition closed_socket : SocketLayer :=
  {| s_accept := λ _ _, (sys_fail EBADF, adapter_bdaddr 0);
     s_connect := λ _ _ _ _, sys_fail EBADF |}.

(** * Properties *)

(** ** Bytes *)

Lemma uint8_range (b : byte) : 0 ≤ uint8 b < 256.
Proof.
  unfold uint8. pose proof (Byte.to_N_bounded b). lia.
Qed.

Lemma uint8_to_uint8 (z : Z) : uint8 (to_uint8 z) = z mod 256.
Proof.
  unfold to_uint8, uint8.
  pose proof (Z.mod_pos_bound z 256 eq_refl) as Hz.
  destruct (Byte.of_N (Z.to_N (z mod 256))) as [b|] eqn:Hb.
  - apply Byte.to_of_N in Hb. simpl. rewrite Hb. lia.
  - apply Byte.of_N_None_iff in Hb. lia.
Qed.

Lemma uint8_to_uint8_small (z : Z) : 0 ≤ z < 256 → uint8 (to_uint8 z) = z.
Proof. intros. rewrite uint8_to_uint8. apply Z.mod_small. lia. Qed.

Lemma uint8_inj (a b : byte) : uint8 a = uint8 b → a = b.
Proof.
  unfold uint8. intros Hab. apply N2Z.inj in Hab.
  pose proof (Byte.of_to_N a) as Ha. rewrite Hab, Byte.of_to_N in Ha.
  congruence.
Qed.

Lemma to_uint8_uint8 (b : byte) : to_uint8 (uint8 b) = b.
Proof.
  apply uint8_inj. rewrite uint8_to_uint8_small; [done | apply uint8_range].
Qed.

Lemma char_to_int_small `{ABI} (b : byte) :
  uint8 b ≤ CHAR_MAX → char_to_int b = uint8 b.
Proof.
  unfold CHAR_MAX, char_to_int, int8. destruct char_signed; [|done].
  intros. destruct (Z.ltb_spec (uint8 b) 128); lia.
Qed.

Lemma char_to_int_to_uint8 `{ABI} (z : Z) :
  0 ≤ z ≤ CHAR_MAX → char_to_int (to_uint8 z) = z.
Proof.
  intros Hz. assert (z < 256) by (unfold CHAR_MAX in Hz; destruct char_signed; lia).
  rewrite char_to_int_small; rewrite uint8_to_uint8_small; lia.
Qed.

Lemma char_to_int_is_name `{ABI} (t : byte) :
  (char_to_int t =? EIR_NAME_SHORT) || (char_to_int t =? EIR_NAME_COMPLETE)
  = is_name_type t.
Proof.
  unfold char_to_int, is_name_type. destruct char_signed, t; reflexivity.
Qed.

Lemma byte_eqb_eq (a b : byte) : Byte.eqb a b = true ↔ a = b.
Proof. split; [apply Byte.byte_dec_bl | apply Byte.byte_dec_lb]. Qed.

Lemma char_to_int_zero `{ABI} : char_to_int x00 = 0.
Proof. unfold char_to_int. by destruct char_signed. Qed.

(** ** C strings *)

Lemma strlen_le (s : list byte) : (strlen s ≤ length s)%nat.
Proof.
  induction s as [|b s IH]; simpl; [lia|]. destruct (Byte.eqb b x00); lia.
Qed.

Lemma length_c_chars (s : list byte) : length (c_chars s) = strlen s.
Proof. unfold c_chars. rewrite length_take. pose proof (strlen_le s). lia. Qed.

Lemma c_chars_no_nul (s : list byte) : x00 ∉ c_chars s.
Proof.
  unfold c_chars. induction s as [|b s IH]; simpl; [apply not_elem_of_nil|].
  destruct (Byte.eqb b x00) eqn:Hb; simpl; [apply not_elem_of_nil|].
  apply not_elem_of_cons. split; [|done].
  intros <-. discriminate Hb.
Qed.

(* a string followed by its terminator, whatever comes after *)
Lemma strlen_terminated (p rest : list byte) :
  x00 ∉ p → strlen (p ++ x00 :: rest) = length p.
Proof.
  induction p as [|b p IH]; simpl; [done|].
  intros [Hb Hp]%not_elem_of_cons.
  destruct (Byte.eqb b x00) eqn:E.
  - apply byte_eqb_eq in E. congruence.
  - by rewrite IH.
Qed.

Lemma strlen_no_nul (p : list byte) : x00 ∉ p → strlen p = length p.
Proof.
  induction p as [|b p IH]; simpl; [done|].
  intros [Hb Hp]%not_elem_of_cons.
  destruct (Byte.eqb b x00) eqn:E.
  - apply byte_eqb_eq in E. congruence.
  - by rewrite IH.
Qed.

Lemma c_chars_no_nul_id (p : list byte) : x00 ∉ p → c_chars p = p.
Proof.
  intros Hp. unfold c_chars. rewrite strlen_no_nul by done. apply firstn_all.
Qed.

Lemma c_string_in_terminated (p rest : list byte) :
  x00 ∉ p → c_string_in (p ++ x00 :: rest) = Ret p.
Proof.
  intros Hp. unfold c_string_in, c_chars. rewrite strlen_terminated by done.
  rewrite length_app. simpl. case_decide; [|lia].
  by rewrite take_app_length.
Qed.

(** ** Memory accesses *)

Lemma bind_Ret {A B} (a : A) (f : A → outcome B) : Ret a ≫= f = f a.
Proof. reflexivity. Qed.

Lemma store_Ret (buf : list byte) (i : Z) (v : byte) :
  0 ≤ i < Z.of_nat (length buf) → store buf i v = Ret (<[Z.to_nat i := v]> buf).
Proof.
  intros Hi. unfold store.
  destruct (Z.ltb_spec i 0); [lia|].
  destruct (Z.leb_spec (Z.of_nat (length buf)) i); [lia|done].
Qed.

Lemma store_bytes_Ret (dst src : list byte) (i : Z) :
  0 ≤ i → i + Z.of_nat (length src) ≤ Z.of_nat (length dst) →
  store_bytes dst i src
  = Ret (take (Z.to_nat i) dst ++ src ++ drop (Z.to_nat i + length src) dst).
Proof.
  intros Hi Hn. unfold store_bytes.
  destruct (Z.ltb_spec i 0); [lia|].
  destruct (Z.ltb_spec (Z.of_nat (length dst)) (i + Z.of_nat (length src)));
    [lia|done].
Qed.

Lemma load_Ret (buf : list byte) (i : nat) (b : byte) :
  buf !! i = Some b → load buf (Z.of_nat i) = Ret b.
Proof.
  intros Hb. unfold load. destruct (Z.ltb_spec (Z.of_nat i) 0); [lia|].
  by rewrite Nat2Z.id, Hb.
Qed.

Lemma load_app (pre post : list byte) (b : byte) (i : Z) :
  i = Z.of_nat (length pre) → load (pre ++ b :: post) i = Ret b.
Proof. intros ->. apply load_Ret. by rewrite list_lookup_middle. Qed.

Lemma load_bytes_app (pre mid post : list byte) (i n : Z) :
  i = Z.of_nat (length pre) → n = Z.of_nat (length mid) →
  load_bytes (pre ++ mid ++ post) i n = Ret mid.
Proof.
  intros -> ->. unfold load_bytes.
  destruct (Z.ltb_spec (Z.of_nat (length pre)) 0); [lia|].
  destruct (Z.ltb_spec (Z.of_nat (length mid)) 0); [lia|].
  destruct (Z.ltb_spec (Z.of_nat (length (pre ++ mid ++ post)))
              (Z.of_nat (length pre) + Z.of_nat (length mid))) as [Hlt|_].
  { rewrite !length_app in Hlt. lia. }
  simpl. rewrite !Nat2Z.id, drop_app_length, take_app_length. done.
Qed.

(** ** The advertising payload *)

Lemma fill_adv_data_cp_spec (adv_payload : list byte) :
  (strlen adv_payload ≤ 26)%nat →
  fill_adv_data_cp adv_payload
  = Ret {| cp_length := to_uint8 (5 + Z.of_nat (strlen adv_payload));
           cp_data := [x02; x01; x06;
                       to_uint8 (Z.of_nat (strlen adv_payload) + 1); x09]
                      ++ c_chars adv_payload
                      ++ replicate (26 - strlen adv_payload) x00 |}.
Proof.
  intros Hn. unfold fill_adv_data_cp.
  set (v := to_uint8 (Z.of_nat (strlen adv_payload) + 1)).
  do 5 (rewrite store_Ret by (rewrite ?length_insert, length_replicate; lia);
        rewrite bind_Ret).
  rewrite store_bytes_Ret
    by (rewrite ?length_insert, ?length_replicate, ?length_c_chars; lia).
  rewrite bind_Ret, length_c_chars. do 2 f_equal.
  replace (Z.to_nat (0 + 1 + 1 + 1 + 1 + 1)) with 5%nat by lia.
  change (take 5 _) with [x02; x01; x06; v; x09].
  change (drop (5 + strlen adv_payload) _)
    with (drop (strlen adv_payload) (replicate 26 x00)).
  by rewrite drop_replicate.
Qed.

(* scenario S1 *)
Example s1_payload_alpha :
  cp_bytes <$> fill_adv_data_cp (list_byte_of_string "Alpha")
  = Ret ([x0a; x02; x01; x06; x06; x09] ++ list_byte_of_string "Alpha"
         ++ replicate 21 x00).
Proof. reflexivity. Qed.

(** C1: for every payload string [p] given to
    [bt_set_le_advertising_payload]: if [len(p) > 26] the call fails with
    PayloadTooLarge and nothing is sent to the controller; otherwise one
    set-advertising-data request is sent whose structure has the length
    field [5 + len(p)], at most 31, and whose data starts with [02 01 06],
    then the byte [len(p) + 1], then [09], then [p] (the rest of the 31
    bytes is zero). *)
Theorem set_le_advertising_payload_encoding (k : Kernel) (dd : Z)
    (adv_payload : list byte) (h : history) :
  let p := c_chars adv_payload in
  ((26 < length p)%nat →
     bt_set_le_advertising_payload k dd adv_payload h
     = Ret (Some PayloadTooLarge, h))
  ∧ ((length p ≤ 26)%nat →
     ∃ cp b3 res r,
       bt_set_le_advertising_payload k dd adv_payload h
       = Ret (res, h ++ [EvHciSendReq dd OGF_LE_CTL
                           OCF_LE_SET_ADVERTISING_DATA (cp_bytes cp) r])
       ∧ uint8 (cp_length cp) = 5 + Z.of_nat (length p)
       ∧ uint8 (cp_length cp) ≤ 31
       ∧ take (5 + length p) (cp_data cp) = [x02; x01; x06; b3; x09] ++ p
       ∧ uint8 b3 = Z.of_nat (length p) + 1
       ∧ drop (5 + length p) (cp_data cp) = replicate (26 - length p) x00).
Proof.
  intros p. subst p. rewrite length_c_chars.
  unfold bt_set_le_advertising_payload, kMaxLEPayloadSize. split; intros Hn.
  - destruct (Z.ltb_spec 26 (Z.of_nat (strlen adv_payload))); [done|lia].
  - destruct (Z.ltb_spec 26 (Z.of_nat (strlen adv_payload))); [lia|].
    rewrite fill_adv_data_cp_spec, bind_Ret by done.
    set (cp := {| cp_length := _ |}).
    assert (length (cp_bytes cp) = 32%nat) as Hlen.
    { simpl. rewrite length_app, length_replicate, length_c_chars. lia. }
    change (Z.to_nat LE_SET_ADVERTISING_DATA_CP_SIZE) with 32%nat.
    rewrite <- Hlen, firstn_all.
    destruct (k_hci_send_req k h dd OGF_LE_CTL OCF_LE_SET_ADVERTISING_DATA
                (cp_bytes cp)) as [r status].
    exists cp, (to_uint8 (Z.of_nat (strlen adv_payload) + 1)).
    exists (if ret r <? 0
            then Some (CommandFailed dd (uint8 status) (errno r)) else None), r.
    split.
    { destruct (ret r <? 0); reflexivity. }
    subst cp. cbn [cp_length cp_data].
    rewrite !uint8_to_uint8_small by lia. repeat split; try lia.
    + rewrite (app_assoc _ (c_chars _)).
      rewrite take_app_length'; [done|].
      rewrite length_app, length_c_chars. simpl. lia.
    + rewrite (app_assoc _ (c_chars _)).
      rewrite drop_app_length'; [done|].
      rewrite length_app, length_c_chars. simpl. lia.
Qed.

Lemma set_le_advertising_payload_encoding_witness :
  bt_set_le_advertising_payload no_channel 4 (replicate 27 x41) []
  = Ret (Some PayloadTooLarge, [])
  ∧ ∃ cp b3 res r,
      bt_set_le_advertising_payload no_channel 4
        (list_byte_of_string "Alpha") []
      = Ret (res, [] ++ [EvHciSendReq 4 OGF_LE_CTL
                           OCF_LE_SET_ADVERTISING_DATA (cp_bytes cp) r])
      ∧ uint8 (cp_length cp) = 5 + 5
      ∧ uint8 (cp_length cp) ≤ 31
      ∧ take (5 + 5) (cp_data cp)
        = [x02; x01; x06; b3; x09] ++ list_byte_of_string "Alpha"
      ∧ uint8 b3 = 5 + 1
      ∧ drop (5 + 5) (cp_data cp) = replicate (26 - 5) x00.
Proof.
  split.
  - apply (proj1 (set_le_advertising_payload_encoding
                    no_channel 4 (replicate 27 x41) [])).
    vm_compute. lia.
  - apply (proj2 (set_le_advertising_payload_encoding
                    no_channel 4 (list_byte_of_string "Alpha") [])).
    vm_compute. lia.
Defined.

(** ** Opening a controller *)

Lemma bt_open_device_negative (k : Kernel) (dev_id : Z) (io : open_io)
    (h : history) :
  dev_id < 0 → bt_open_device k dev_id io h = Fault.
Proof.
  intros Hneg. unfold bt_open_device.
  destruct (Z.ltb_spec dev_id 0); [reflexivity | lia].
Qed.

(* From a non-negative id on, the call returns; on success the address
   is set, on failure it is left as it was.  No bind is attempted. *)
Lemma bt_open_device_nonneg (k : Kernel) (dev_id : Z) (io : open_io)
    (h : history) :
  0 ≤ dev_id →
  ∃ err io' evs,
    bt_open_device k dev_id io h = Ret (err, io', h ++ evs)
    ∧ bind_targets evs = []
    ∧ match err with
      | None => is_Some (oo_local_address io')
      | Some _ => oo_local_address io' = oo_local_address io
      end.
Proof.
  intros Hid. unfold bt_open_device, asprintf.
  destruct (Z.ltb_spec dev_id 0); [lia|].
  destruct (ret (k_socket k h) <? 0).
  { eexists _, _, [_]. by rewrite bind_Ret. }
  destruct (k_getdevinfo k _ _ dev_id) as [r di_name].
  destruct (ret r <? 0).
  { eexists _, _, [_; _; _]. rewrite bind_Ret, <- !app_assoc. done. }
  cbn [oo_dd oo_name oo_local_address].
  destruct (ret (k_hci_open_dev k _ dev_id) <? 0).
  - eexists _, _, [_; _; _; _; _]. rewrite bind_Ret, <- !app_assoc. done.
  - eexists _, _, [_; _; _; _; _]. rewrite <- !app_assoc. done.
Qed.

(** ** Binding *)

(* the three branches of bt_bind *)
Lemma bt_bind_devices (f : nat) (k : Kernel) (sock : Z) (c : Z) (h : history) :
  bt_bind (S f) k sock {| local_address := None; channel := c |} h
  = device_loop k (bt_bind f k sock) (S f) 0 0 None
      {| local_address := None; channel := c |} h.
Proof. reflexivity. Qed.

Lemma bt_bind_channels (f : nat) (k : Kernel) (sock : Z) (addr : string)
    (h : history) :
  bt_bind (S f) k sock {| local_address := Some addr; channel := 0 |} h
  = channel_loop (bt_bind f k sock) (S f)
      {| local_address := Some addr; channel := 1 |} h.
Proof. reflexivity. Qed.

Lemma bt_bind_pair (f : nat) (k : Kernel) (sock : Z) (addr : string) (c : Z)
    (h : history) :
  c ≠ 0 →
  bt_bind (S f) k sock {| local_address := Some addr; channel := c |} h
  = let rc := uint8 (to_uint8 c) in
    let r := k_bind k h sock addr rc in
    Ret (if ret r <? 0 then Some (BindError sock addr c (errno r)) else None,
         {| local_address := Some addr; channel := c |},
         h ++ [EvBind sock addr rc r]).
Proof.
  intros Hc. cbn [bt_bind local_address channel]. unfold asprintf.
  destruct (Z.eqb_spec c 0); [done|]. cbv zeta.
  destruct (ret _ <? 0); reflexivity.
Qed.

Lemma bind_attempts_snoc (k : Kernel) (sock : Z) (addr : string) (n : nat) :
  ∀ h c,
    bind_attempts k sock addr h c (S n)
    = bind_attempts k sock addr h c n
      ++ [EvBind sock addr (c + Z.of_nat n)
            (k_bind k (h ++ bind_attempts k sock addr h c n) sock addr
               (c + Z.of_nat n))].
Proof.
  induction n as [|n IH]; intros h c.
  - simpl. by rewrite app_nil_r, Z.add_0_r.
  - change (bind_attempts k sock addr h c (S (S n)))
      with (EvBind sock addr c (k_bind k h sock addr c)
            :: bind_attempts k sock addr
                 (h ++ [EvBind sock addr c (k_bind k h sock addr c)])
                 (c + 1) (S n)).
    rewrite IH. cbn [bind_attempts]. rewrite <- !app_assoc. simpl.
    by replace (c + 1 + Z.of_nat n) with (c + Z.of_nat (S n)) by lia.
Qed.

Lemma length_bind_attempts (k : Kernel) (sock : Z) (addr : string) (n : nat) :
  ∀ h c, length (bind_attempts k sock addr h c n) = n.
Proof. induction n as [|n IH]; intros; simpl; [done | by rewrite IH]. Qed.

Lemma bind_targets_attempts (k : Kernel) (sock : Z) (addr : string) (n : nat) :
  ∀ h c,
    bind_targets (bind_attempts k sock addr h c n)
    = (λ i : nat, (addr, c + Z.of_nat i)) <$> seq 0 n.
Proof.
  induction n as [|n IH]; intros h c; [done|].
  cbn [bind_attempts]. unfold bind_targets in *. cbn [omap list_omap].
  rewrite IH. simpl. rewrite Z.add_0_r. f_equal.
  rewrite <- fmap_S_seq, <- list_fmap_compose. apply list_fmap_ext.
  intros _ i _. simpl. f_equal. lia.
Qed.

(* What the search of lines 113-121 does from channel [c] on, with [m]
   channels left to try: either some attempt goes through after [n]
   failed ones and the channel it used is left in place, or all [m]
   attempts fail and the channel is left at [kMaxChannel]. *)
Lemma channel_loop_spec (k : Kernel) (sock : Z) (addr : string) (f : nat)
    (m : nat) :
  ∀ (c : Z) (h : history) (fuel : nat),
    1 ≤ c → c + Z.of_nat m = kMaxChannel → (m < fuel)%nat →
    let run := channel_loop (bt_bind (S f) k sock) fuel
                 {| local_address := Some addr; channel := c |} h in
    let evs := bind_attempts k sock addr h c in
    (∃ n : nat,
        (n < m)%nat
        ∧ Forall bind_failed (evs n)
        ∧ 0 ≤ ret (k_bind k (h ++ evs n) sock addr (c + Z.of_nat n))
        ∧ run = Ret (None,
                     {| local_address := Some addr;
                        channel := c + Z.of_nat n |},
                     h ++ evs (S n)))
    ∨ (Forall bind_failed (evs m)
       ∧ run = Ret (Some NoChannelAvailable,
                    {| local_address := Some addr; channel := kMaxChannel |},
                    h ++ evs m)).
Proof.
  unfold kMaxChannel.
  induction m as [|m IH]; intros c h fuel Hc Hm Hfuel;
    (destruct fuel as [|fuel]; [lia|]); cbn zeta.
  - right. split; [constructor|]. cbn [channel_loop channel].
    unfold kMaxChannel. destruct (Z.ltb_spec c 30); [lia|].
    simpl. rewrite app_nil_r. repeat f_equal. lia.
  - cbn [channel_loop channel]. unfold kMaxChannel.
    destruct (Z.ltb_spec c 30); [|lia].
    rewrite bt_bind_pair by lia. cbv zeta. rewrite bind_Ret.
    rewrite uint8_to_uint8_small by lia.
    set (r := k_bind k h sock addr c).
    destruct (Z.ltb_spec (ret r) 0) as [Hr|Hr].
    + cbn [local_address channel].
      assert (∀ n, h ++ bind_attempts k sock addr h c (S n)
                   = (h ++ [EvBind sock addr c r])
                     ++ bind_attempts k sock addr
                          (h ++ [EvBind sock addr c r]) (c + 1) n) as Hsplit.
      { intros n. cbn [bind_attempts]. by rewrite <- app_assoc. }
      destruct (IH (c + 1) (h ++ [EvBind sock addr c r]) fuel)
        as [(n & Hn & Hfail & Hok & Hrun)|[Hfail Hrun]]; [lia..| |].
      * left. exists (S n). split; [lia|].
        split; [by constructor|].
        rewrite !Hsplit.
        replace (c + Z.of_nat (S n)) with (c + 1 + Z.of_nat n) by lia.
        done.
      * right. split; [by constructor|]. by rewrite Hsplit.
    + left. exists 0%nat. split; [lia|]. split; [constructor|].
      simpl. rewrite app_nil_r, Z.add_0_r. done.
Qed.

Lemma bind_attempts_app (k : Kernel) (sock : Z) (addr : string) (n m : nat) :
  ∀ h c,
    bind_attempts k sock addr h c (n + m)
    = bind_attempts k sock addr h c n
      ++ bind_attempts k sock addr (h ++ bind_attempts k sock addr h c n)
           (c + Z.of_nat n) m.
Proof.
  induction n as [|n IH]; intros h c.
  - simpl. by rewrite app_nil_r, Z.add_0_r.
  - cbn [Nat.add bind_attempts]. rewrite IH. cbn [app]. do 2 f_equal.
    rewrite <- app_assoc. cbn [app].
    by replace (c + 1 + Z.of_nat n) with (c + Z.of_nat (S n)) by lia.
Qed.

(* An attempt that went through is not among attempts that all failed. *)
Lemma bind_attempts_all_failed (k : Kernel) (sock : Z) (addr : string)
    (h : history) (c : Z) (n m : nat) :
  (n < m)%nat →
  Forall bind_failed (bind_attempts k sock addr h c m) →
  ret (k_bind k (h ++ bind_attempts k sock addr h c n) sock addr
         (c + Z.of_nat n)) < 0.
Proof.
  intros Hnm Hall.
  replace m with (n + S (m - S n))%nat in Hall by lia.
  rewrite bind_attempts_app in Hall.
  apply Forall_app in Hall as [_ Hall]. cbn [bind_attempts] in Hall.
  by apply Forall_cons in Hall as [Hn _].
Qed.

(* with the address given, bt_bind returns whatever the channel *)
Lemma bt_bind_addr_returns (f : nat) (k : Kernel) (sock : Z) (addr : string)
    (c : Z) (h : history) :
  ∃ err c' evs,
    bt_bind (30 + f) k sock {| local_address := Some addr; channel := c |} h
    = Ret (err, {| local_address := Some addr; channel := c' |}, h ++ evs).
Proof.
  change (30 + f)%nat with (S (S (28 + f))).
  destruct (decide (c = 0)) as [->|Hc].
  - rewrite bt_bind_channels.
    destruct (channel_loop_spec k sock addr (28 + f) 29 1 h (S (S (28 + f))))
      as [(n & _ & _ & _ & ->)|[_ ->]]; [done|done|lia|by eauto..].
  - rewrite bt_bind_pair by done. cbv zeta. by eauto.
Qed.

Lemma device_loop_returns (k : Kernel) (sock : Z) (f : nat) (m : nat) :
  ∀ (dev_id dd : Z) name io h fuel,
    0 ≤ dev_id → dev_id + Z.of_nat m = kMaxDevices → (m < fuel)%nat →
    returns (device_loop k (bt_bind (30 + f) k sock) fuel dev_id dd name io h).
Proof.
  unfold kMaxDevices.
  induction m as [|m IH]; intros dev_id dd name io h fuel Hid Hm Hfuel;
    (destruct fuel as [|fuel]; [lia|]); cbn [device_loop]; unfold kMaxDevices.
  - destruct (Z.ltb_spec dev_id 5); [lia|]. by eexists.
  - destruct (Z.ltb_spec dev_id 5); [|lia].
    destruct (bt_open_device_nonneg k dev_id
                {| oo_dd := dd; oo_name := name;
                   oo_local_address := local_address io |} h Hid)
      as (err & oo & evs & -> & _ & Haddr).
    rewrite bind_Ret. destruct err as [e|].
    { apply IH; lia. }
    unfold bt_close_device, asprintf.
    destruct (ret (k_hci_close_dev k _ _) <? 0); rewrite !bind_Ret;
      cbn [local_address]; destruct Haddr as [addr ->];
      (destruct (bt_bind_addr_returns f k sock addr (channel io)
                   (h ++ evs ++ [EvHciCloseDev (oo_dd oo)
                      (k_hci_close_dev k (h ++ evs) (oo_dd oo))]))
         as (err & c' & evs' & Hrun));
      rewrite app_assoc in Hrun; rewrite Hrun, bind_Ret;
      (destruct err; [apply IH; lia | by eexists]).
Qed.

(** X6: bt_bind returns on every input: the assert of line 101 never
    fails, and 31 levels of fuel are enough for the three levels of calls
    and the 30 and 6 tests of its loops. *)
Lemma bt_bind_returns (f : nat) (k : Kernel) (sock : Z) (io : bind_io)
    (h : history) :
  returns (bt_bind (31 + f) k sock io h).
Proof.
  destruct io as [[addr|] c].
  - destruct (bt_bind_addr_returns (S f) k sock addr c h)
      as (err & c' & evs & Hrun).
    replace (30 + S f)%nat with (31 + f)%nat in Hrun by lia. by eexists.
  - change (31 + f)%nat with (S (30 + f)). rewrite bt_bind_devices.
    apply (device_loop_returns k sock f 5); [done|done|lia].
Qed.

(* scenario S5 *)
Example s5_channel_search (f : nat) :
  bt_bind (31 + f) only_channel_4 7
    {| local_address := Some "AA:BB:CC:DD:EE:FF"%string; channel := 0 |} []
  = Ret (None,
         {| local_address := Some "AA:BB:CC:DD:EE:FF"%string; channel := 4 |},
         bind_attempts only_channel_4 7 "AA:BB:CC:DD:EE:FF" [] 1 4).
Proof. reflexivity. Qed.

(* scenario S6 *)
Example s6_exhaustion (f : nat) :
  bt_bind (31 + f) no_channel 7
    {| local_address := Some "AA:BB:CC:DD:EE:FF"%string; channel := 0 |} []
  = Ret (Some NoChannelAvailable,
         {| local_address := Some "AA:BB:CC:DD:EE:FF"%string; channel := 30 |},
         bind_attempts no_channel 7 "AA:BB:CC:DD:EE:FF" [] 1 29).
Proof. reflexivity. Qed.

(** C7: for every call of [bt_bind] with the address supplied and the
    channel 0, bind is attempted on the channels 1, 2, ... in this order,
    each attempt after the failure of the one before.  Either one of the
    channels 1 to 29 goes through, the call succeeds and that channel is
    the one written back; or all 29 attempts fail and the call fails.  Of
    the two outcomes the claim allows on exhaustion, it is the second: the
    error of the last attempt is dropped and NoChannelAvailable stands in
    for it. *)
Theorem bind_channel_search (f : nat) (k : Kernel) (sock : Z) (addr : string)
    (h : history) :
  let run := bt_bind (31 + f) k sock
               {| local_address := Some addr; channel := 0 |} h in
  let attempts := bind_attempts k sock addr h 1 in
  (∃ n : nat,
      (n < 29)%nat
      ∧ Forall bind_failed (attempts n)
      ∧ (∃ r, attempts (S n)
              = attempts n ++ [EvBind sock addr (1 + Z.of_nat n) r]
              ∧ 0 ≤ ret r)
      ∧ run = Ret (None,
                   {| local_address := Some addr;
                      channel := 1 + Z.of_nat n |},
                   h ++ attempts (S n)))
  ∨ (Forall bind_failed (attempts 29%nat)
     ∧ ∃ (r : sysret) (err : error),
         attempts 29%nat = attempts 28%nat ++ [EvBind sock addr 29 r]
         ∧ run = Ret (Some err,
                      {| local_address := Some addr; channel := 30 |},
                      h ++ attempts 29%nat)
         ∧ (err = BindError sock addr 29 (errno r)
            ∨ err = NoChannelAvailable)
         ∧ err = NoChannelAvailable).
Proof.
  cbv zeta. change (31 + f)%nat with (S (S (29 + f))).
  rewrite bt_bind_channels.
  destruct (channel_loop_spec k sock addr (29 + f) 29 1 h (S (S (29 + f))))
    as [(n & Hn & Hfail & Hok & Hrun)|[Hfail Hrun]]; [done|done|lia| |].
  - left. exists n. repeat split; [done|done| |done].
    eexists. split; [apply bind_attempts_snoc|done].
  - right. split; [done|]. eexists _, NoChannelAvailable.
    split; [apply (bind_attempts_snoc k sock addr 28 h 1)|]. auto.
Qed.

(** C9: for every call of [bt_bind] with the address supplied and the
    channel 0 in which none of the channels 1 to 29 binds, the call
    returns an error and leaves 30, the value of [kMaxChannel], in the
    caller's channel: a value outside [1, 29], and not the 0 that was
    passed in. *)
Theorem bind_exhaustion_leaves_kMaxChannel (f : nat) (k : Kernel) (sock : Z)
    (addr : string) (h : history) :
  Forall bind_failed (bind_attempts k sock addr h 1 29) →
  ∃ err io',
    bt_bind (31 + f) k sock {| local_address := Some addr; channel := 0 |} h
    = Ret (Some err, io', h ++ bind_attempts k sock addr h 1 29)
    ∧ channel io' = kMaxChannel
    ∧ channel io' = 30
    ∧ ¬ (1 ≤ channel io' ≤ 29)
    ∧ channel io' ≠ 0
    ∧ local_address io' = Some addr.
Proof.
  intros Hall. change (31 + f)%nat with (S (S (29 + f))).
  rewrite bt_bind_channels.
  destruct (channel_loop_spec k sock addr (29 + f) 29 1 h (S (S (29 + f))))
    as [(n & Hn & _ & Hok & _)|[_ ->]]; [done|done|lia| |].
  - pose proof (bind_attempts_all_failed k sock addr h 1 n 29 Hn Hall). lia.
  - eexists _, _. split; [done|]. unfold kMaxChannel. simpl.
    split_and!; [done | done | lia | done | done].
Qed.

Lemma bind_exhaustion_leaves_kMaxChannel_witness :
  ∃ err io',
    bt_bind (31 + 0) no_channel 7
      {| local_address := Some "AA:BB:CC:DD:EE:FF"%string; channel := 0 |} []
    = Ret (Some err, io',
           [] ++ bind_attempts no_channel 7 "AA:BB:CC:DD:EE:FF" [] 1 29)
    ∧ channel io' = kMaxChannel
    ∧ channel io' = 30
    ∧ ¬ (1 ≤ channel io' ≤ 29)
    ∧ channel io' ≠ 0
    ∧ local_address io' = Some "AA:BB:CC:DD:EE:FF"%string.
Proof.
  apply (bind_exhaustion_leaves_kMaxChannel 0 no_channel 7
           "AA:BB:CC:DD:EE:FF" []).
  vm_compute. repeat (constructor; [reflexivity|]). constructor.
Defined.

(** X7: with the address supplied and the channel 0, a channel written
    back by a successful search is one of 1 to 29. *)
Lemma bind_channel_search_range (f : nat) (k : Kernel) (sock : Z)
    (addr : string) (h : history) (io' : bind_io) (h' : history) :
  bt_bind (31 + f) k sock {| local_address := Some addr; channel := 0 |} h
  = Ret (None, io', h') →
  1 ≤ channel io' ≤ 29.
Proof.
  change (31 + f)%nat with (S (S (29 + f))). rewrite bt_bind_channels.
  destruct (channel_loop_spec k sock addr (29 + f) 29 1 h (S (S (29 + f))))
    as [(n & Hn & _ & _ & ->)|[_ ->]]; [done|done|lia| |].
  - intros [= <- _]. simpl. lia.
  - intros [=].
Qed.

(** C2 (defect in the code): with both the address and the channel left to
    bt_bind, on a machine with two adapters of which only the second has a
    free channel, channel 5: the five device ids are probed in order and
    the channels 1 to 29 are tried on the first adapter, but the failed
    search leaves 30 in the channel, so on the second adapter the single
    channel 30 is tried, and the call fails although the pair (second
    adapter, channel 5) works. *)
Theorem second_adapter_is_not_searched (f : nat) :
  let k := second_adapter_channel_5 in
  ∃ h,
    bt_bind (31 + f) k 7 {| local_address := None; channel := 0 |} []
    = Ret (Some NoDeviceAvailable,
           {| local_address := Some "AA:00:00:00:00:01"%string;
              channel := 30 |}, h)
    ∧ probed_devices h = [0; 1; 2; 3; 4]
    ∧ bind_targets h
      = ((λ c, ("AA:00:00:00:00:00"%string, c)) <$> seqZ 1 29)
        ++ [("AA:00:00:00:00:01"%string, 30)]
    ∧ ∀ h', ret (k_bind k h' 7 "AA:00:00:00:00:01" 5) = 0.
Proof.
  eexists. split; [vm_compute; reflexivity|]. by vm_compute.
Qed.

(** C6 (defect in the code): with both the address and the channel left to
    bt_bind, on a machine with two adapters of which only the second has a
    free channel, channel 30: the call succeeds and writes back the
    channel 30, outside [1, 29]. *)
Theorem resolver_returns_channel_30 (f : nat) :
  ∃ io' h,
    bt_bind (31 + f) second_adapter_channel_30 7
      {| local_address := None; channel := 0 |} []
    = Ret (None, io', h)
    ∧ local_address io' = Some "AA:00:00:00:00:01"%string
    ∧ channel io' = 30
    ∧ ¬ (1 ≤ channel io' ≤ 29)
    ∧ last (bind_targets h) = Some ("AA:00:00:00:00:01"%string, 30).
Proof.
  eexists _, _. split; [vm_compute; reflexivity|]. simpl.
  split_and!; [done | done | lia | by vm_compute].
Qed.

(** C8 (defect in the code): called with the device id -1,
    [bt_open_device] does not return an error string: [asprintf] is handed
    the null pointer held in [err] where the address of [err] was meant,
    and stores through it.  No socket or device operation is made before
    that. *)
Theorem open_device_negative_id_faults (k : Kernel) (io : open_io)
    (h : history) :
  bt_open_device k (-1) io h = Fault
  ∧ ∀ e io' h', bt_open_device k (-1) io h ≠ Ret (Some e, io', h').
Proof. split; [reflexivity | discriminate]. Qed.

(** ** The walk over the EIR records *)

Lemma load_at (data pre post : list byte) (b : byte) (i : Z) :
  data = pre ++ b :: post → i = Z.of_nat (length pre) → load data i = Ret b.
Proof. intros -> ->. by apply load_app. Qed.

Lemma load_bytes_at (data pre mid post : list byte) (i n : Z) :
  data = pre ++ mid ++ post →
  i = Z.of_nat (length pre) → n = Z.of_nat (length mid) →
  load_bytes data i n = Ret mid.
Proof. intros -> -> ->. by apply load_bytes_app. Qed.

Lemma length_encode_record (r : eir_record) :
  length (encode_record r) = (2 + length (r_value r))%nat.
Proof. reflexivity. Qed.

Lemma length_overlay (value name : list byte) :
  (length value ≤ length name)%nat →
  length (overlay value name) = length name.
Proof. intros. unfold overlay. rewrite length_app, length_drop. lia. Qed.

Lemma length_copy_name (name : list byte) (r : eir_record) :
  length name = 31%nat → length (copy_name name r) = 31%nat.
Proof.
  intros Hname. unfold copy_name, name_record.
  destruct (is_name_type _); [|done].
  destruct (Nat.leb_spec (length (r_value r)) 31); [|done].
  simpl. rewrite length_overlay; lia.
Qed.

Lemma length_foldl_copy_name (rs : list eir_record) :
  ∀ name, length name = 31%nat → length (foldl copy_name name rs) = 31%nat.
Proof.
  induction rs as [|r rs IH]; intros name Hname; [done|].
  simpl. apply IH. by apply length_copy_name.
Qed.

(* leaving the loop at its test *)
Lemma eir_walk_end `{ABI} (f : nat) (data : list byte) (ptr end_ : Z)
    (name : list byte) :
  end_ ≤ ptr → eir_walk (S f) data ptr end_ name = Ret name.
Proof.
  intros Hend. cbn [eir_walk]. destruct (Z.ltb_spec ptr end_); [lia|done].
Qed.

(* leaving the loop at a record of length zero *)
Lemma eir_walk_zero `{ABI} (f : nat) (data : list byte) (ptr end_ : Z)
    (name : list byte) :
  load data ptr = Ret x00 → eir_walk (S f) data ptr end_ name = Ret name.
Proof.
  intros Hload. cbn [eir_walk]. destruct (ptr <? end_); [|done].
  by rewrite Hload, bind_Ret, char_to_int_zero.
Qed.

(* one turn of the loop over a record that lies within the data *)
Lemma eir_walk_record `{ABI} (f : nat) (data pre post : list byte)
    (r : eir_record) (end_ : Z) (name : list byte) :
  data = pre ++ encode_record r ++ post →
  record_ok r →
  Z.of_nat (length pre + length (encode_record r)) ≤ end_ →
  length name = 31%nat →
  eir_walk (S f) data (Z.of_nat (length pre)) end_ name
  = eir_walk f data (Z.of_nat (length pre + length (encode_record r))) end_
      (copy_name name r).
Proof.
  intros Hdata Hok Hend Hname. unfold record_ok in Hok.
  rewrite length_encode_record in *.
  set (n := length (r_value r)) in *.
  assert (0 ≤ Z.of_nat n + 1 ≤ CHAR_MAX) as Hn by lia.
  cbn [eir_walk].
  destruct (Z.ltb_spec (Z.of_nat (length pre)) end_); [|lia].
  rewrite (load_at data pre (r_type r :: r_value r ++ post)
             (to_uint8 (Z.of_nat n + 1)) (Z.of_nat (length pre))) by done.
  rewrite bind_Ret, char_to_int_to_uint8 by done.
  destruct (Z.eqb_spec (Z.of_nat n + 1) 0); [lia|].
  destruct (Z.ltb_spec end_ (Z.of_nat (length pre) + 1 + (Z.of_nat n + 1)));
    [lia|].
  rewrite (load_at data (pre ++ [to_uint8 (Z.of_nat n + 1)])
             (r_value r ++ post) (r_type r) (Z.of_nat (length pre) + 1))
    by (rewrite ?length_app, <- ?app_assoc; simpl; done || lia).
  rewrite bind_Ret, char_to_int_is_name.
  replace (Z.of_nat (length pre) + 1 + 1 + (Z.of_nat n + 1 - 1))
    with (Z.of_nat (length pre + (2 + n))) by lia.
  unfold copy_name, name_record, kMaxNameLength.
  destruct (is_name_type (r_type r)); [|by rewrite bind_Ret].
  fold n. replace (Z.of_nat n + 1 - 1) with (Z.of_nat n) by lia.
  destruct (Z.ltb_spec 31 (Z.of_nat n)), (Nat.leb_spec n 31); try lia;
    [by rewrite bind_Ret|].
  unfold memcpy. destruct (Z.ltb_spec (Z.of_nat n) 0); [lia|].
  rewrite (load_bytes_at data (pre ++ [to_uint8 (Z.of_nat n + 1); r_type r])
             (r_value r) post)
    by (rewrite ?length_app, <- ?app_assoc; simpl; done || lia).
  rewrite bind_Ret, store_bytes_Ret by (fold n; lia).
  by rewrite bind_Ret.
Qed.

Lemma length_encode_records_cons (r : eir_record) (rs : list eir_record) :
  length (encode_records (r :: rs))
  = (length (encode_record r) + length (encode_records rs))%nat.
Proof.
  unfold encode_records. rewrite fmap_cons. cbn [concat]. apply length_app.
Qed.

(* the walk over a run of records that lies within the data *)
Lemma eir_walk_records `{ABI} (f : nat) (data post : list byte) (end_ : Z)
    (rs : list eir_record) :
  ∀ (pre name : list byte),
    data = pre ++ encode_records rs ++ post →
    Forall record_ok rs →
    Z.of_nat (length pre + length (encode_records rs)) ≤ end_ →
    length name = 31%nat →
    eir_walk (length rs + f) data (Z.of_nat (length pre)) end_ name
    = eir_walk f data (Z.of_nat (length pre + length (encode_records rs)))
        end_ (foldl copy_name name rs).
Proof.
  induction rs as [|r rs IH]; intros pre name Hdata Hok Hend Hname.
  - simpl. by rewrite Nat.add_0_r.
  - apply Forall_cons in Hok as [Hr Hrs].
    rewrite length_encode_records_cons in *.
    change (encode_records (r :: rs))
      with (encode_record r ++ encode_records rs) in Hdata.
    cbn [length Nat.add foldl].
    assert (data = pre ++ encode_record r ++ encode_records rs ++ post)
      as Hdata' by (by rewrite Hdata, <- app_assoc).
    rewrite (eir_walk_record _ data pre (encode_records rs ++ post) r);
      [|done|done|lia|done].
    rewrite <- length_app.
    rewrite (IH (pre ++ encode_record r) (copy_name name r)).
    + rewrite length_app. do 2 f_equal. lia.
    + by rewrite <- app_assoc.
    + done.
    + rewrite length_app. lia.
    + by apply length_copy_name.
Qed.

(** ** The advertising report *)

(* an advertising report is parsed up to the walk over its EIR data *)
Lemma parse_adv_report `{ABI} (fuel : nat) (plen evt_type bdaddr_type : byte)
    (bdaddr : bdaddr_t) (eir : list byte) (rssi_byte : byte) (out : le_out) :
  (length eir ≤ 255)%nat →
  let data := adv_report plen evt_type bdaddr_type bdaddr eir rssi_byte in
  bt_parse_le_meta_event fuel data out
  = name ← eir_walk fuel data 14 (14 + Z.of_nat (length eir))
             (replicate 31 x00);
    Ret (None, {| remote_addr := Some (ba2str bdaddr);
                  remote_name := Some name;
                  rssi := int8 rssi_byte;
                  done := 0 |}).
Proof.
  intros Hlen data. unfold bt_parse_le_meta_event.
  assert (load data (1 + HCI_EVENT_HDR_SIZE) = Ret x02) as -> by done.
  rewrite bind_Ret.
  change (uint8 x02 =? 1) with false. change (uint8 x02 =? 2) with true.
  cbn [negb].
  assert (load_bdaddr data (1 + HCI_EVENT_HDR_SIZE + 1 + 1 + 2) = Ret bdaddr)
    as -> by (by destruct bdaddr).
  rewrite bind_Ret.
  assert (load data (1 + HCI_EVENT_HDR_SIZE + 1 + 1 + 8)
          = Ret (to_uint8 (Z.of_nat (length eir)))) as -> by done.
  rewrite bind_Ret, uint8_to_uint8_small by lia.
  change (1 + HCI_EVENT_HDR_SIZE + 1 + 1 + 9) with 14.
  rewrite (load_at data
             (adv_header plen evt_type bdaddr_type bdaddr
                (to_uint8 (Z.of_nat (length eir))) ++ eir) [] rssi_byte
             (14 + Z.of_nat (length eir))).
  - rewrite bind_Ret. destruct (eir_walk _ _ _ _ _); reflexivity.
  - subst data. unfold adv_report. by rewrite <- app_assoc.
  - rewrite length_app. cbn [adv_header length]. lia.
Qed.

(** ** The dispatch on the subevent code *)

(* subevent 0x01: success, [done] set, nothing else written *)
Lemma parse_connection_complete `{ABI} (fuel : nat) (data : list byte)
    (out : le_out) :
  load data 3 = Ret x01 →
  bt_parse_le_meta_event fuel data out = Ret (None, set_done 1 out).
Proof.
  intros Hs. unfold bt_parse_le_meta_event.
  change (1 + HCI_EVENT_HDR_SIZE) with 3. by rewrite Hs.
Qed.

(* any subevent but 0x01 and 0x02: the error names the code, [done] is
   cleared, nothing else written *)
Lemma parse_wrong_event_type `{ABI} (fuel : nat) (data : list byte)
    (s : byte) (out : le_out) :
  load data 3 = Ret s → s ≠ x01 → s ≠ x02 →
  bt_parse_le_meta_event fuel data out
  = Ret (Some (WrongEventType (uint8 s)), set_done 0 out).
Proof.
  intros Hs H1 H2. unfold bt_parse_le_meta_event.
  change (1 + HCI_EVENT_HDR_SIZE) with 3. rewrite Hs, bind_Ret.
  destruct (Z.eqb_spec (uint8 s) 1) as [E|_].
  { by apply (uint8_inj s x01) in E. }
  destruct (Z.eqb_spec (uint8 s) 2) as [E|_].
  { by apply (uint8_inj s x02) in E. }
  reflexivity.
Qed.

Lemma message_wrong_event_type (strerror : Z → string) :
  message strerror (WrongEventType (uint8 x3e)) = "wrong event type: 62"%string.
Proof. reflexivity. Qed.

Lemma load_in_range (data : list byte) (i : Z) :
  0 ≤ i < Z.of_nat (length data) → ∃ b, load data i = Ret b ∧ b ∈ data.
Proof.
  intros Hi. unfold load. destruct (Z.ltb_spec i 0); [lia|].
  destruct (data !! Z.to_nat i) as [b|] eqn:Hb.
  - exists b. split; [done|]. by eapply list_elem_of_lookup_2.
  - apply lookup_ge_None in Hb. lia.
Qed.

Lemma load_bytes_Ret (data : list byte) (i n : Z) :
  0 ≤ i → 0 ≤ n → i + n ≤ Z.of_nat (length data) →
  ∃ bytes, load_bytes data i n = Ret bytes ∧ Z.of_nat (length bytes) = n.
Proof.
  intros Hi Hn Hlen. unfold load_bytes.
  destruct (Z.ltb_spec i 0); [lia|]. destruct (Z.ltb_spec n 0); [lia|].
  destruct (Z.ltb_spec (Z.of_nat (length data)) (i + n)); [lia|].
  eexists. split; [done|]. rewrite length_take, length_drop. lia.
Qed.

(* Where every length byte reads as a non-negative number the walk
   advances at every turn and ends. *)
Lemma eir_walk_returns `{ABI} (data : list byte) (end_ : Z) :
  Forall char_ok data → end_ ≤ Z.of_nat (length data) →
  ∀ (fuel : nat) (ptr : Z) (name : list byte),
    0 ≤ ptr → (Z.to_nat (end_ - ptr) < fuel)%nat → length name = 31%nat →
    ∃ name', eir_walk fuel data ptr end_ name = Ret name'
             ∧ length name' = 31%nat.
Proof.
  intros Hdata Hend. rewrite Forall_forall in Hdata.
  induction fuel as [|fuel IH]; intros ptr name Hptr Hfuel Hname; [lia|].
  cbn [eir_walk]. destruct (Z.ltb_spec ptr end_); [|by eauto].
  destruct (load_in_range data ptr) as (b & -> & Hb); [lia|].
  rewrite bind_Ret, char_to_int_small by (by apply Hdata).
  pose proof (uint8_range b) as Hrange.
  destruct (Z.eqb_spec (uint8 b) 0); [by eauto|].
  destruct (Z.ltb_spec end_ (ptr + 1 + uint8 b)); [by eauto|].
  destruct (load_in_range data (ptr + 1)) as (t & -> & _); [lia|].
  rewrite bind_Ret.
  assert (∃ name', (if (char_to_int t =? EIR_NAME_SHORT)
                       || (char_to_int t =? EIR_NAME_COMPLETE)
                    then if kMaxNameLength <? uint8 b - 1 then Ret name
                         else memcpy name data (ptr + 1 + 1) (uint8 b - 1)
                    else Ret name) = Ret name'
                   ∧ length name' = 31%nat) as (name' & -> & Hname').
  { destruct (_ || _); [|by eauto]. unfold kMaxNameLength.
    destruct (Z.ltb_spec 31 (uint8 b - 1)); [by eauto|].
    unfold memcpy. destruct (Z.ltb_spec (uint8 b - 1) 0); [lia|].
    destruct (load_bytes_Ret data (ptr + 1 + 1) (uint8 b - 1))
      as (bytes & -> & Hbytes); [lia..|].
    rewrite bind_Ret, store_bytes_Ret by lia.
    eexists. split; [done|].
    rewrite !length_app, length_take, length_drop. lia. }
  rewrite bind_Ret. apply IH; [lia|lia|done].
Qed.

(* An advertising report that is whole, with an EIR length [len] and
   bytes that all read as non-negative, is decoded: the call succeeds,
   [done] is cleared, the address, the name buffer and the RSSI are
   written. *)
Lemma parse_report_returns `{ABI} (fuel : nat) (data : list byte)
    (len : byte) (out : le_out) :
  load data 3 = Ret x02 →
  load data 13 = Ret len →
  15 + uint8 len ≤ Z.of_nat (length data) →
  Forall char_ok data →
  (Z.to_nat (uint8 len) < fuel)%nat →
  ∃ bdaddr name rssi_byte,
    bt_parse_le_meta_event fuel data out
    = Ret (None, {| remote_addr := Some (ba2str bdaddr);
                    remote_name := Some name;
                    rssi := int8 rssi_byte;
                    done := 0 |})
    ∧ load_bdaddr data 7 = Ret bdaddr
    ∧ load data (14 + uint8 len) = Ret rssi_byte
    ∧ length name = 31%nat.
Proof.
  intros Hs Hlen Hsize Hok Hfuel. pose proof (uint8_range len) as Hrange.
  unfold bt_parse_le_meta_event.
  change (1 + HCI_EVENT_HDR_SIZE) with 3. rewrite Hs, bind_Ret.
  change (uint8 x02 =? 1) with false. change (uint8 x02 =? 2) with true.
  cbn [negb].
  change (3 + 1 + 1 + 2) with 7. change (3 + 1 + 1 + 8) with 13.
  change (3 + 1 + 1 + 9) with 14.
  assert (∃ bdaddr, load_bdaddr data 7 = Ret bdaddr) as [bdaddr Haddr].
  { unfold load_bdaddr.
    destruct (load_in_range data 7) as (a0 & -> & _); [lia|].
    destruct (load_in_range data (7 + 1)) as (a1 & -> & _); [lia|].
    destruct (load_in_range data (7 + 2)) as (a2 & -> & _); [lia|].
    destruct (load_in_range data (7 + 3)) as (a3 & -> & _); [lia|].
    destruct (load_in_range data (7 + 4)) as (a4 & -> & _); [lia|].
    destruct (load_in_range data (7 + 5)) as (a5 & -> & _); [lia|].
    rewrite !bind_Ret. by eexists. }
  rewrite Haddr, bind_Ret, Hlen, bind_Ret.
  destruct (load_in_range data (14 + uint8 len)) as (rssi_byte & Hrssi & _);
    [lia|].
  rewrite Hrssi, bind_Ret.
  destruct (eir_walk_returns data (14 + uint8 len) Hok ltac:(lia) fuel 14
              (replicate (Z.to_nat kMaxNameLength) x00))
    as (name & -> & Hname); [lia|lia|done|].
  rewrite bind_Ret. by exists bdaddr, name, rssi_byte.
Qed.

(* where plain [char] is unsigned every byte reads as non-negative *)
Lemma char_ok_unsigned `{ABI} (data : list byte) :
  char_signed = false → Forall char_ok data.
Proof.
  intros Hu. apply Forall_forall. intros b _. unfold char_ok, CHAR_MAX.
  rewrite Hu. pose proof (uint8_range b). lia.
Qed.

(** C3 (defect in the code): the packet is a whole advertising report,
    subevent 0x02, whose EIR data is the two bytes FF 09.  Where plain
    [char] is signed the length byte is read as -1, passes both tests of
    the walk, and [memcpy] is called with the size -2: the call does not
    return.  Where plain [char] is unsigned the same packet is parsed with
    success. *)
Theorem parse_long_record_faults (fuel : nat) (out : le_out) :
  long_record_packet
  = [x04; x3e; x0c; x02; x01; x00; x00; x01; x00; x00; x00; x00; xaa;
     x02; xff; x09; xc0]
  ∧ load long_record_packet 3 = Ret x02
  ∧ @bt_parse_le_meta_event abi_x86_64 (S fuel) long_record_packet out = Fault
  ∧ ¬ returns (@bt_parse_le_meta_event abi_x86_64 fuel long_record_packet out)
  ∧ ∃ out', @bt_parse_le_meta_event abi_arm (S fuel) long_record_packet out
            = Ret (None, out')
            ∧ done out' = 0.
Proof.
  split; [reflexivity|]. split; [reflexivity|]. split; [reflexivity|]. split.
  - intros [r Hr]. destruct fuel; discriminate Hr.
  - eexists. split; reflexivity.
Qed.

(* With a record type that is no name the same length byte sends the walk
   back to where it stands: the call never returns. *)
Lemma parse_long_record_loops (fuel : nat) (out : le_out) :
  @bt_parse_le_meta_event abi_x86_64 fuel long_record_packet' out = OutOfFuel.
Proof.
  assert (∀ name, @eir_walk abi_x86_64 fuel long_record_packet' 14 16 name
                  = OutOfFuel) as Hloop.
  { induction fuel as [|fuel IH]; intros name; [done|]. apply IH. }
  unfold long_record_packet' in *.
  rewrite parse_adv_report by (simpl; lia).
  change (14 + Z.of_nat (length [xff; x00])) with 16. by rewrite Hloop.
Qed.

(** C4: parsing the packet of scenario S3 succeeds, with the address
    "06:05:04:03:02:01", the name "Sensor", the RSSI -64 and [done]
    cleared, whatever the parameter length in its header. *)
Theorem parse_s3_packet `{ABI} (xx : byte) (out : le_out) (f : nat) :
  ∃ name,
    bt_parse_le_meta_event (2 + f) (s3_packet xx) out
    = Ret (None, {| remote_addr := Some "06:05:04:03:02:01"%string;
                    remote_name := Some name;
                    rssi := -64;
                    done := 0 |})
    ∧ c_string_in name = Ret (list_byte_of_string "Sensor")
    ∧ length name = 31%nat.
Proof.
  destruct H as [[]]; (eexists; split; [reflexivity|split; reflexivity]).
Qed.

(* [eir_walk_records] with the positions given by equations *)
Lemma eir_walk_records_at `{ABI} (f : nat) (data pre post : list byte)
    (ptr ptr' end_ : Z) (rs : list eir_record) (name : list byte) :
  data = pre ++ encode_records rs ++ post →
  ptr = Z.of_nat (length pre) →
  ptr' = ptr + Z.of_nat (length (encode_records rs)) →
  Forall record_ok rs → ptr' ≤ end_ → length name = 31%nat →
  eir_walk (length rs + f) data ptr end_ name
  = eir_walk f data ptr' end_ (foldl copy_name name rs).
Proof.
  intros Hdata -> -> Hok Hend Hname.
  rewrite (eir_walk_records f data post end_ rs pre name); [|done|done|lia|done].
  f_equal. lia.
Qed.

Lemma foldl_copy_name_other (rs : list eir_record) (name : list byte) :
  Forall (λ r, name_record r = false) rs → foldl copy_name name rs = name.
Proof.
  revert name. induction rs as [|r rs IH]; intros name Hrs; [done|].
  apply Forall_cons in Hrs as [Hr Hrs]. simpl. unfold copy_name at 2.
  rewrite Hr. by apply IH.
Qed.

(* the EIR data of the payload structure, cut at any length that covers
   what was written *)
Lemma take_cp_data (p : list byte) (L : nat) :
  (5 + length p ≤ L ≤ 31)%nat →
  take L ([x02; x01; x06; to_uint8 (Z.of_nat (length p) + 1); x09] ++ p
          ++ replicate (26 - length p) x00)
  = encode_records [ {| r_type := x01; r_value := [x06] |};
                     {| r_type := x09; r_value := p |} ]
    ++ replicate (L - (5 + length p)) x00.
Proof.
  intros HL. rewrite (app_assoc _ p), take_app_ge
    by (rewrite length_app; simpl; lia).
  rewrite take_replicate, length_app. cbn [length].
  replace ((L - (5 + length p)) `min` (26 - length p))%nat
    with (L - (5 + length p))%nat by lia.
  unfold encode_records, encode_record. cbn [fmap list_fmap concat r_type r_value].
  rewrite app_nil_r. reflexivity.
Qed.

(** C5: for every payload [p] of at most 26 bytes, the EIR data that
    [bt_set_le_advertising_payload] builds for [p], put into an
    advertising report whose EIR length covers the bytes written (any
    length from [5 + len(p)] to the 31 bytes of the structure), is parsed
    by [bt_parse_le_meta_event] into a name buffer that holds the string
    [p]. *)
Theorem encode_parse_roundtrip `{ABI} (adv_payload : list byte)
    (plen evt_type bdaddr_type : byte) (bdaddr : bdaddr_t) (rssi_byte : byte)
    (L : nat) (out : le_out) (f : nat) :
  let p := c_chars adv_payload in
  (length p ≤ 26)%nat →
  (5 + length p ≤ L ≤ 31)%nat →
  ∃ cp name,
    fill_adv_data_cp adv_payload = Ret cp
    ∧ uint8 (cp_length cp) = 5 + Z.of_nat (length p)
    ∧ bt_parse_le_meta_event (3 + f)
        (adv_report plen evt_type bdaddr_type bdaddr (take L (cp_data cp))
           rssi_byte) out
      = Ret (None, {| remote_addr := Some (ba2str bdaddr);
                      remote_name := Some name;
                      rssi := int8 rssi_byte;
                      done := 0 |})
    ∧ c_string_in name = Ret p.
Proof.
  intros p Hp HL. pose proof (length_c_chars adv_payload) as Hn. fold p in Hn.
  eexists _, (p ++ replicate (31 - length p) x00).
  split; [apply fill_adv_data_cp_spec; lia|]. cbn [cp_length cp_data].
  split; [rewrite uint8_to_uint8_small; lia|].
  rewrite <- Hn. fold p. rewrite take_cp_data by done.
  set (rs := [ {| r_type := x01; r_value := [x06] |};
               {| r_type := x09; r_value := p |} ]).
  set (pad := replicate (L - (5 + length p)) x00).
  assert (length (encode_records rs) = (5 + length p)%nat) as Hrs.
  { unfold encode_records, rs. simpl. rewrite app_nil_r. simpl. lia. }
  assert (length (encode_records rs ++ pad) = L) as Heir.
  { rewrite length_app, Hrs. unfold pad. rewrite length_replicate. lia. }
  split.
  - rewrite parse_adv_report by lia. cbv zeta. rewrite Heir.
    set (hdr := adv_header plen evt_type bdaddr_type bdaddr (to_uint8 (Z.of_nat L))).
    set (data := adv_report _ _ _ _ _ _).
    assert (data = hdr ++ encode_records rs ++ pad ++ [rssi_byte]) as Hdata.
    { subst data hdr. unfold adv_report. by rewrite Heir, <- app_assoc. }
    assert (Z.of_nat (length hdr) = 14) as Hhdr by reflexivity.
    change (3 + f)%nat with (length rs + (S f))%nat.
    rewrite (eir_walk_records_at (S f) data hdr (pad ++ [rssi_byte])
               14 (14 + Z.of_nat (5 + length p)) (14 + Z.of_nat L) rs);
      [|done|done|by rewrite Hrs| |lia|done].
    + assert (foldl copy_name (replicate 31 x00) rs
              = p ++ replicate (31 - length p) x00) as ->.
      { unfold rs. cbn [foldl]. unfold copy_name, name_record.
        cbn [r_type r_value]. change (is_name_type x01) with false.
        change (is_name_type x09) with true. cbn [andb].
        destruct (Nat.leb_spec (length p) 31); [|lia].
        unfold overlay. by rewrite drop_replicate. }
      destruct (decide (L = 5 + length p)%nat) as [->|HL'].
      * rewrite eir_walk_end by lia. by rewrite bind_Ret.
      * rewrite eir_walk_zero; [by rewrite bind_Ret|].
        apply (load_at data (hdr ++ encode_records rs)
                 (replicate (L - (5 + length p) - 1) x00 ++ [rssi_byte])).
        -- rewrite Hdata. unfold pad.
           replace (L - (5 + length p))%nat
             with (S (L - (5 + length p) - 1)) at 1 by lia.
           cbn [replicate]. by rewrite <- !app_assoc.
        -- rewrite length_app, Hrs. lia.
    + repeat constructor; unfold record_ok, CHAR_MAX; cbn [r_value length];
        destruct char_signed; lia.
  - replace (31 - length p)%nat with (S (30 - length p)) by lia.
    apply c_string_in_terminated, c_chars_no_nul.
Qed.

Lemma encode_parse_roundtrip_witness :
  ∃ cp name,
    fill_adv_data_cp (list_byte_of_string "Alpha") = Ret cp
    ∧ uint8 (cp_length cp) = 5 + 5
    ∧ @bt_parse_le_meta_event abi_x86_64 (3 + 0)
        (adv_report x0c x00 x00 (adapter_bdaddr 1) (take 10 (cp_data cp)) xc0)
        no_out
      = Ret (None, {| remote_addr := Some (ba2str (adapter_bdaddr 1));
                      remote_name := Some name;
                      rssi := int8 xc0;
                      done := 0 |})
    ∧ c_string_in name = Ret (list_byte_of_string "Alpha").
Proof.
  apply (encode_parse_roundtrip (H:=abi_x86_64) (list_byte_of_string "Alpha")
           x0c x00 x00 (adapter_bdaddr 1) xc0 10 no_out 0);
    vm_compute; lia.
Defined.

Lemma foldl_copy_name_last (before after : list eir_record) (r : eir_record)
    (name : list byte) :
  name_record r = true →
  Forall (λ r, name_record r = false) after →
  foldl copy_name name (before ++ r :: after)
  = overlay (r_value r) (foldl copy_name name before).
Proof.
  intros Hr Hafter. rewrite foldl_app. cbn [foldl].
  rewrite foldl_copy_name_other by done. unfold copy_name. by rewrite Hr.
Qed.

Lemma name_record_length (r : eir_record) :
  name_record r = true → (length (r_value r) ≤ 31)%nat.
Proof.
  unfold name_record. intros [_ Hlen]%andb_true_iff.
  by apply Nat.leb_le in Hlen.
Qed.

(** C10: in the walk of [bt_parse_le_meta_event] the name buffer is zeroed
    once, before the walk, and every name record (type 0x08 or 0x09, value
    of at most 31 bytes) is copied to its start over what is there.  So
    the buffer returned begins with the bytes of the last name record;
    and with two name records it holds the bytes of the second, then the
    bytes of the first beyond the length of the second, then zeros. *)
Theorem name_records_overlay `{ABI} (rs : list eir_record)
    (plen evt_type bdaddr_type : byte) (bdaddr : bdaddr_t) (rssi_byte : byte)
    (out : le_out) (f : nat) :
  Forall record_ok rs →
  (length (encode_records rs) ≤ 255)%nat →
  ∃ name,
    bt_parse_le_meta_event (S (length rs) + f)
      (adv_report plen evt_type bdaddr_type bdaddr (encode_records rs)
         rssi_byte) out
    = Ret (None, {| remote_addr := Some (ba2str bdaddr);
                    remote_name := Some name;
                    rssi := int8 rssi_byte;
                    done := 0 |})
    ∧ name = foldl copy_name (replicate 31 x00) rs
    ∧ (∀ before r after,
         rs = before ++ r :: after →
         name_record r = true →
         Forall (λ r, name_record r = false) after →
         take (length (r_value r)) name = r_value r)
    ∧ (∀ before r1 between r2 after,
         rs = before ++ r1 :: between ++ r2 :: after →
         name_record r1 = true → name_record r2 = true →
         Forall (λ r, name_record r = false) (before ++ between ++ after) →
         let v1 := r_value r1 in
         let v2 := r_value r2 in
         name = v2 ++ drop (length v2) v1
                ++ replicate (31 - (length v1 `max` length v2)) x00
         ∧ (x00 ∉ v1 → x00 ∉ v2 → (length v2 ≤ length v1 < 31)%nat →
            c_string_in name = Ret (v2 ++ drop (length v2) v1))).
Proof.
  intros Hok Hlen. exists (foldl copy_name (replicate 31 x00) rs).
  split_and!; [|done| |].
  - rewrite parse_adv_report by done. cbv zeta.
    pose (hdr := adv_header plen evt_type bdaddr_type bdaddr
                   (to_uint8 (Z.of_nat (length (encode_records rs))))).
    set (data := adv_report _ _ _ _ _ _).
    replace (S (length rs) + f)%nat with (length rs + S f)%nat by lia.
    rewrite (eir_walk_records_at (S f) data hdr [rssi_byte] 14
               (14 + Z.of_nat (length (encode_records rs)))
               (14 + Z.of_nat (length (encode_records rs))) rs);
      [|done|done|done|done|lia|done].
    rewrite eir_walk_end by lia. by rewrite bind_Ret.
  - intros before r after -> Hr Hafter.
    rewrite foldl_copy_name_last by done. unfold overlay.
    by rewrite take_app_length.
  - intros before r1 between r2 after -> Hr1 Hr2 Hothers v1 v2.
    apply Forall_app in Hothers as [Hbefore Hothers].
    apply Forall_app in Hothers as [Hbetween Hafter].
    pose proof (name_record_length r1 Hr1) as Hv1.
    pose proof (name_record_length r2 Hr2) as Hv2. fold v1 in Hv1. fold v2 in Hv2.
    assert (foldl copy_name (replicate 31 x00)
              (before ++ r1 :: between ++ r2 :: after)
            = v2 ++ drop (length v2) v1
              ++ replicate (31 - (length v1 `max` length v2)) x00) as ->.
    { rewrite (app_comm_cons between), app_assoc.
      rewrite foldl_copy_name_last by done.
      rewrite foldl_copy_name_last by done.
      rewrite foldl_copy_name_other by done.
      unfold overlay. fold v1 v2. rewrite drop_replicate, drop_app.
      rewrite drop_replicate. do 3 f_equal. lia. }
    split; [done|]. intros Hz1 Hz2 Hlt.
    rewrite app_assoc.
    replace (31 - (length v1 `max` length v2))%nat
      with (S (30 - length v1)) by lia.
    apply c_string_in_terminated. apply not_elem_of_app. split; [done|].
    intros Hin. apply Hz1. rewrite <- (take_drop (length v2) v1).
    apply elem_of_app. by right.
Qed.

Lemma name_records_overlay_witness :
  ∃ name,
    @bt_parse_le_meta_event abi_x86_64 (S (length two_names) + 0)
      (adv_report x0c x00 x00 (adapter_bdaddr 1) (encode_records two_names)
         xc0) no_out
    = Ret (None, {| remote_addr := Some (ba2str (adapter_bdaddr 1));
                    remote_name := Some name;
                    rssi := int8 xc0;
                    done := 0 |})
    ∧ name = list_byte_of_string "ABnsor" ++ replicate 25 x00
    ∧ c_string_in name = Ret (list_byte_of_string "ABnsor").
Proof.
  destruct (name_records_overlay (H:=abi_x86_64) two_names x0c x00 x00
              (adapter_bdaddr 1) xc0 no_out 0)
    as (name & Hrun & Hname & _ & Htwo).
  - repeat constructor; vm_compute; discriminate.
  - vm_compute. lia.
  - exists name. split; [exact Hrun|].
    destruct (Htwo [] {| r_type := x09;
                         r_value := list_byte_of_string "Sensor" |}
                [ {| r_type := x01; r_value := [x06] |} ]
                {| r_type := x08; r_value := list_byte_of_string "AB" |} []
                eq_refl eq_refl eq_refl) as [Heq Hstr].
    + repeat constructor.
    + split; [exact Heq|]. apply Hstr.
      * vm_compute.
        repeat (apply not_elem_of_cons; split; [discriminate|]).
        apply not_elem_of_nil.
      * vm_compute.
        repeat (apply not_elem_of_cons; split; [discriminate|]).
        apply not_elem_of_nil.
      * vm_compute. lia.
Defined.

(** * Further properties of the code *)

(** ** bt_open_device *)


(* the calls of bt_open_device and their answers, named *)
Ltac name_open_device_calls k h dev_id :=
  set (r_sock := k_socket k h);
  set (h1 := h ++ [EvSocket r_sock]);
  destruct (k_getdevinfo k h1 (ret r_sock) dev_id) as [r_info di_name];
  set (h2 := h1 ++ [EvGetDevInfo (ret r_sock) dev_id r_info]);
  set (h3 := h2 ++ [EvDevUp (ret r_sock) dev_id]);
  set (r_open := k_hci_open_dev k h3 dev_id);
  set (h4 := h3 ++ [EvHciOpenDev dev_id r_open]).

(* what a call with a non-negative id leaves in the history *)
Lemma bt_open_device_events (k : Kernel) (dev_id : Z) (io : open_io)
    (h : history) :
  0 ≤ dev_id →
  ∃ err io' evs,
    bt_open_device k dev_id io h = Ret (err, io', h ++ evs)
    ∧ hci_closed evs = []
    ∧ (length (sockets_opened evs) ≤ 1)%nat
    ∧ match err with
      | None =>
          is_Some (oo_local_address io')
          ∧ hci_opened evs = [oo_dd io']
          ∧ length (sockets_opened evs) = 1%nat
          ∧ sockets_closed evs = []
      | Some _ =>
          oo_local_address io' = oo_local_address io
          ∧ hci_opened evs = []
          ∧ sockets_closed evs = sockets_opened evs
      end.
Proof.
  intros Hid. unfold bt_open_device, asprintf.
  destruct (Z.ltb_spec dev_id 0); [lia|].
  name_open_device_calls k h dev_id.
  destruct (ret r_sock <? 0) eqn:Hsock.
  { exists (Some (SocketError (errno r_sock))), io, [EvSocket r_sock].
    split; [done|]. unfold sockets_opened. simpl. rewrite Hsock.
    split_and!; (done || (simpl; lia)). }
  destruct (ret r_info <? 0).
  { eexists _, io, [EvSocket r_sock; EvGetDevInfo (ret r_sock) dev_id r_info;
                    EvClose (ret r_sock)].
    split. { rewrite bind_Ret. unfold h2, h1. by rewrite <- !app_assoc. }
    unfold sockets_opened. simpl. rewrite Hsock. simpl.
    split_and!; (done || (simpl; lia)). }
  cbn [oo_dd oo_name oo_local_address].
  destruct (ret r_open <? 0) eqn:Hopen.
  - eexists _, _, [EvSocket r_sock; EvGetDevInfo (ret r_sock) dev_id r_info;
                   EvDevUp (ret r_sock) dev_id; EvHciOpenDev dev_id r_open;
                   EvClose (ret r_sock)].
    split. { rewrite bind_Ret. unfold h4, h3, h2, h1. by rewrite <- !app_assoc. }
    unfold sockets_opened, hci_opened. simpl. rewrite Hsock, Hopen. simpl.
    split_and!; (done || (simpl; lia)).
  - eexists None, _,
      [EvSocket r_sock; EvGetDevInfo (ret r_sock) dev_id r_info;
       EvDevUp (ret r_sock) dev_id; EvHciOpenDev dev_id r_open;
       EvHciDevba dev_id].
    split. { unfold h4, h3, h2, h1. by rewrite <- !app_assoc. }
    unfold sockets_opened, hci_opened. simpl. rewrite Hsock, Hopen. simpl.
    split_and!; (by eauto) || lia.
Qed.





(** ** bt_bind *)

Lemma forallb_is_bind_attempts (k : Kernel) (sock : Z) (addr : string)
    (n : nat) :
  ∀ h c, forallb is_bind (bind_attempts k sock addr h c n) = true.
Proof. induction n as [|n IH]; intros h c; simpl; [done | apply IH]. Qed.

(* bind events open and close nothing *)
Lemma is_bind_no_descriptors (evs : list event) :
  forallb is_bind evs = true →
  hci_opened evs = [] ∧ hci_closed evs = []
  ∧ sockets_opened evs = [] ∧ sockets_closed evs = [].
Proof.
  induction evs as [|e evs IH]; [done|]. simpl.
  intros [He Hevs]%andb_true_iff. destruct e; try discriminate He.
  by apply IH.
Qed.

Lemma ends_bound_app (sock : Z) (io : bind_io) (pre evs : list event) :
  ends_bound sock io evs → ends_bound sock io (pre ++ evs).
Proof.
  intros (addr & r & pre' & Haddr & -> & Hr).
  exists addr, r, (pre ++ pre'). by rewrite app_assoc.
Qed.

(* bt_bind with the address given: only binds are made, all on that
   address; a success ends with the bind that went through, a failure is
   classified by the channel passed in *)
Lemma bt_bind_addr_spec (f : nat) (k : Kernel) (sock : Z) (addr : string)
    (c : Z) (h : history) :
  ∃ err c' evs,
    bt_bind (30 + f) k sock {| local_address := Some addr; channel := c |} h
    = Ret (err, {| local_address := Some addr; channel := c' |}, h ++ evs)
    ∧ forallb is_bind evs = true
    ∧ match err with
      | None =>
          ends_bound sock {| local_address := Some addr; channel := c' |} evs
      | Some e =>
          if decide (c = 0) then e = NoChannelAvailable
          else ∃ n, e = BindError sock addr c n
      end.
Proof.
  change (30 + f)%nat with (S (S (28 + f))).
  destruct (decide (c = 0)) as [->|Hc].
  - rewrite bt_bind_channels.
    destruct (channel_loop_spec k sock addr (28 + f) 29 1 h (S (S (28 + f))))
      as [(n & Hn & _ & Hok & ->)|[_ ->]]; [done|done|lia| |].
    + eexists _, _, _. split; [done|].
      split; [apply forallb_is_bind_attempts|].
      rewrite bind_attempts_snoc. eexists addr, _, _.
      split; [done|]. split; [|exact Hok]. cbn [channel].
      by rewrite uint8_to_uint8_small by lia.
    + eexists _, _, _. split; [done|].
      split; [apply forallb_is_bind_attempts|done].
  - rewrite bt_bind_pair by done. cbv zeta.
    set (r := k_bind k h sock addr (uint8 (to_uint8 c))).
    eexists _, _, [_]. split; [done|]. split; [done|].
    destruct (Z.ltb_spec (ret r) 0); [by eauto|].
    by exists addr, r, [].
Qed.

Lemma hci_opened_app (l1 l2 : list event) :
  hci_opened (l1 ++ l2) = hci_opened l1 ++ hci_opened l2.
Proof. apply omap_app. Qed.

Lemma hci_closed_app (l1 l2 : list event) :
  hci_closed (l1 ++ l2) = hci_closed l1 ++ hci_closed l2.
Proof. apply omap_app. Qed.

Lemma sockets_opened_app (l1 l2 : list event) :
  sockets_opened (l1 ++ l2) = sockets_opened l1 ++ sockets_opened l2.
Proof. apply omap_app. Qed.

Lemma sockets_closed_app (l1 l2 : list event) :
  sockets_closed (l1 ++ l2) = sockets_closed l1 ++ sockets_closed l2.
Proof. apply omap_app. Qed.

(* the device loop: it returns; every descriptor opened is closed again,
   in order; every device that opened has left one socket open; a success
   ends with the bind that went through; the only error is
   NoDeviceAvailable *)
Lemma device_loop_spec (k : Kernel) (sock : Z) (f : nat) (m : nat) :
  ∀ (dev_id dd : Z) name io h fuel,
    0 ≤ dev_id → dev_id + Z.of_nat m = kMaxDevices → (m < fuel)%nat →
    ∃ err io' evs,
      device_loop k (bt_bind (30 + f) k sock) fuel dev_id dd name io h
      = Ret (err, io', h ++ evs)
      ∧ hci_closed evs = hci_opened evs
      ∧ length (sockets_opened evs)
        = (length (sockets_closed evs) + length (hci_opened evs))%nat
      ∧ (length (sockets_opened evs) ≤ m)%nat
      ∧ match err with
        | None => ends_bound sock io' evs
        | Some e => e = NoDeviceAvailable
        end.
Proof.
  unfold kMaxDevices.
  induction m as [|m IH]; intros dev_id dd name io h fuel Hid Hm Hfuel;
    (destruct fuel as [|fuel]; [lia|]); cbn [device_loop]; unfold kMaxDevices.
  - destruct (Z.ltb_spec dev_id 5); [lia|].
    exists (Some NoDeviceAvailable), io, []. by rewrite app_nil_r.
  - destruct (Z.ltb_spec dev_id 5); [|lia].
    destruct (bt_open_device_events k dev_id
                {| oo_dd := dd; oo_name := name;
                   oo_local_address := local_address io |} h Hid)
      as (err & oo & evs & -> & Hclosed & Hone & Hopen).
    rewrite bind_Ret. destruct err as [e|].
    { destruct Hopen as (_ & Hopened & Hsockets).
      destruct (IH (dev_id + 1) (oo_dd oo) (oo_name oo)
                  {| local_address := oo_local_address oo;
                     channel := channel io |} (h ++ evs) fuel)
        as (err' & io' & evs' & -> & Hc' & Hs' & Hm' & Herr'); [lia..|].
      exists err', io', (evs ++ evs'). rewrite app_assoc. split; [done|].
      rewrite hci_closed_app, hci_opened_app, sockets_opened_app,
        sockets_closed_app, !length_app, Hclosed, Hopened, Hc', Hs', Hsockets.
      split; [done|]. split; [simpl; lia|]. split; [lia|].
      destruct err'; [done|]. by apply ends_bound_app. }
    destruct Hopen as ([addr Haddr] & Hopened & Hsockets & Hnoclose).
    set (r_close := k_hci_close_dev k (h ++ evs) (oo_dd oo)).
    set (e_close := EvHciCloseDev (oo_dd oo) r_close).
    assert (∀ B (g : history → outcome B),
              bt_close_device k (oo_dd oo) (h ++ evs) ≫= (λ '(_, h0), g h0)
              = g ((h ++ evs) ++ [e_close])) as ->.
    { intros B g. unfold bt_close_device, asprintf. fold r_close e_close.
      by destruct (ret r_close <? 0). }
    cbn [local_address]. rewrite Haddr.
    destruct (bt_bind_addr_spec f k sock addr (channel io)
                ((h ++ evs) ++ [e_close]))
      as (err & c' & evs_b & -> & Hbinds & Herr).
    rewrite bind_Ret.
    destruct (is_bind_no_descriptors evs_b Hbinds) as (Ho & Hc & Hso & Hsc).
    assert (hci_closed (evs ++ [e_close] ++ evs_b)
            = hci_opened (evs ++ [e_close] ++ evs_b)) as Hbal.
    { rewrite !hci_closed_app, !hci_opened_app, Hclosed, Hopened, Ho, Hc.
      done. }
    assert (length (sockets_opened (evs ++ [e_close] ++ evs_b)) = 1%nat
            ∧ sockets_closed (evs ++ [e_close] ++ evs_b) = []
            ∧ length (hci_opened (evs ++ [e_close] ++ evs_b)) = 1%nat)
      as (Hs1 & Hs2 & Hs3).
    { rewrite !sockets_opened_app, !sockets_closed_app, !hci_opened_app,
        !length_app, Hsockets, Hnoclose, Hopened, Ho, Hso, Hsc. done. }
    destruct err as [e|].
    + destruct (IH (dev_id + 1) (oo_dd oo) (oo_name oo)
                  {| local_address := Some addr; channel := c' |}
                  (((h ++ evs) ++ [e_close]) ++ evs_b) fuel)
        as (err' & io' & evs' & -> & Hc' & Hs' & Hm' & Herr'); [lia..|].
      exists err', io', ((evs ++ [e_close] ++ evs_b) ++ evs').
      split; [by rewrite <- !app_assoc|].
      rewrite hci_closed_app, hci_opened_app, sockets_opened_app,
        sockets_closed_app, !length_app, Hbal, Hc', Hs', Hs1, Hs2, Hs3.
      split; [done|]. split; [simpl; lia|]. split; [lia|].
      destruct err'; [done|]. by apply ends_bound_app.
    + exists None, {| local_address := Some addr; channel := c' |},
        (evs ++ [e_close] ++ evs_b).
      split; [by rewrite <- !app_assoc|].
      rewrite Hbal, Hs1, Hs2, Hs3. split; [done|]. split; [done|].
      split; [lia|]. rewrite app_assoc. by apply ends_bound_app.
Qed.

(** X3: whenever [bt_bind] returns success, whatever was passed in, the
    address location holds an address and the last call made to the
    kernel is a bind of the socket to that address and to the channel
    held in the channel location (its low 8 bits), and that bind went
    through. *)
Theorem bind_success_is_bound (f : nat) (k : Kernel) (sock : Z)
    (io io' : bind_io) (h h' : history) :
  bt_bind (31 + f) k sock io h = Ret (None, io', h') →
  ∃ addr r evs,
    local_address io' = Some addr
    ∧ h' = h ++ evs ++ [EvBind sock addr (channel io' mod 256) r]
    ∧ 0 ≤ ret r.
Proof.
  intros Hrun.
  assert (∃ evs, h' = h ++ evs ∧ ends_bound sock io' evs)
    as (evs & -> & addr & r & pre & Haddr & -> & Hr).
  { destruct io as [[addr|] c].
    - destruct (bt_bind_addr_spec (S f) k sock addr c h)
        as (err & c' & evs & Hrun' & _ & Herr).
      replace (30 + S f)%nat with (31 + f)%nat in Hrun' by lia.
      rewrite Hrun' in Hrun. injection Hrun as -> <- <-. by eauto.
    - change (31 + f)%nat with (S (30 + f)) in Hrun.
      rewrite bt_bind_devices in Hrun.
      destruct (device_loop_spec k sock f 5 0 0 None
                  {| local_address := None; channel := c |} h (S (30 + f)))
        as (err & io'' & evs & Hrun' & _ & _ & _ & Herr); [done|done|lia|].
      rewrite Hrun' in Hrun. injection Hrun as -> <- <-. by eauto. }
  exists addr, r, pre. rewrite <- uint8_to_uint8. done.
Qed.

Lemma bind_success_is_bound_witness :
  ∃ addr r evs,
    Some "AA:BB:CC:DD:EE:FF"%string = Some addr
    ∧ bind_attempts only_channel_4 7 "AA:BB:CC:DD:EE:FF" [] 1 4
      = [] ++ evs ++ [EvBind 7 addr (4 mod 256) r]
    ∧ 0 ≤ ret r.
Proof.
  apply (bind_success_is_bound 0 only_channel_4 7
           {| local_address := Some "AA:BB:CC:DD:EE:FF"%string; channel := 0 |}
           {| local_address := Some "AA:BB:CC:DD:EE:FF"%string; channel := 4 |}
           []).
  reflexivity.
Defined.

(** X4: the error [bt_bind] returns is decided by what was passed in:
    without an address it is NoDeviceAvailable, with an address and the
    channel 0 it is NoChannelAvailable, and only with both given is it
    the BindError of the bind that failed, with its errno.  The errors of
    the binds made during a search are never reported. *)
Theorem bind_error_kind (f : nat) (k : Kernel) (sock : Z) (io io' : bind_io)
    (h h' : history) (e : error) :
  bt_bind (31 + f) k sock io h = Ret (Some e, io', h') →
  match local_address io with
  | None => e = NoDeviceAvailable
  | Some addr =>
      if decide (channel io = 0) then e = NoChannelAvailable
      else ∃ n, e = BindError sock addr (channel io) n
  end.
Proof.
  intros Hrun. destruct io as [[addr|] c]; cbn [local_address channel].
  - destruct (bt_bind_addr_spec (S f) k sock addr c h)
      as (err & c' & evs & Hrun' & _ & Herr).
    replace (30 + S f)%nat with (31 + f)%nat in Hrun' by lia.
    rewrite Hrun' in Hrun. by injection Hrun as -> <- <-.
  - change (31 + f)%nat with (S (30 + f)) in Hrun.
    rewrite bt_bind_devices in Hrun.
    destruct (device_loop_spec k sock f 5 0 0 None
                {| local_address := None; channel := c |} h (S (30 + f)))
      as (err & io'' & evs & Hrun' & _ & _ & _ & Herr); [done|done|lia|].
    rewrite Hrun' in Hrun. by injection Hrun as -> <- <-.
Qed.

Lemma bind_error_kind_witness :
  match local_address {| local_address := None; channel := 0 |} with
  | None => NoDeviceAvailable = NoDeviceAvailable
  | Some addr =>
      if decide (channel {| local_address := None; channel := 0 |} = 0)
      then NoDeviceAvailable = NoChannelAvailable
      else ∃ n, NoDeviceAvailable
                = BindError 7 addr
                    (channel {| local_address := None; channel := 0 |}) n
  end.
Proof.
  eapply (bind_error_kind 0 no_channel 7
            {| local_address := None; channel := 0 |} _ [] _
            NoDeviceAvailable).
  vm_compute. reflexivity.
Defined.


Lemma bind_channel_search_range_witness : 1 ≤ 4 ≤ 29.
Proof.
  exact (bind_channel_search_range 0 only_channel_4 7 "AA:BB:CC:DD:EE:FF" []
           {| local_address := Some "AA:BB:CC:DD:EE:FF"%string; channel := 4 |}
           (bind_attempts only_channel_4 7 "AA:BB:CC:DD:EE:FF" [] 1 4)
           eq_refl).
Defined.

(** X8: with the address and a channel other than 0 passed in, [bt_bind]
    makes one bind, on the low 8 bits of the channel, and leaves both
    locations as they were; so a channel of 256 or more is bound as
    another channel than the one the caller holds, and an error reports
    the channel as passed. *)
Theorem bind_channel_low_byte (f : nat) (k : Kernel) (sock : Z)
    (addr : string) (c : Z) (h : history) :
  c ≠ 0 →
  ∃ r,
    r = k_bind k h sock addr (c mod 256)
    ∧ bt_bind (31 + f) k sock {| local_address := Some addr; channel := c |} h
      = Ret (if ret r <? 0 then Some (BindError sock addr c (errno r))
             else None,
             {| local_address := Some addr; channel := c |},
             h ++ [EvBind sock addr (c mod 256) r]).
Proof.
  intros Hc. eexists. split; [reflexivity|].
  change (31 + f)%nat with (S (30 + f)). rewrite bt_bind_pair by done.
  cbv zeta. by rewrite uint8_to_uint8.
Qed.

Lemma bind_channel_low_byte_witness :
  ∃ r,
    r = k_bind only_channel_4 [] 7 "AA:BB:CC:DD:EE:FF" (260 mod 256)
    ∧ bt_bind (31 + 0) only_channel_4 7
        {| local_address := Some "AA:BB:CC:DD:EE:FF"%string; channel := 260 |}
        []
      = Ret (if ret r <? 0
             then Some (BindError 7 "AA:BB:CC:DD:EE:FF" 260 (errno r))
             else None,
             {| local_address := Some "AA:BB:CC:DD:EE:FF"%string;
                channel := 260 |},
             [] ++ [EvBind 7 "AA:BB:CC:DD:EE:FF" (260 mod 256) r]).
Proof.
  apply (bind_channel_low_byte 0 only_channel_4 7 "AA:BB:CC:DD:EE:FF" 260 []).
  discriminate.
Defined.

(** ** bt_parse_le_meta_event *)

(** X9: for a packet whose subevent code is not 0x02 the parser looks at
    nothing but that code and writes nothing but [done]: for 0x01 it
    returns success with [done] set to 1, for any other code it returns
    the error "wrong event type: " followed by the code in decimal, with
    [done] set to 0. *)
Theorem parse_other_subevents `{ABI} (fuel : nat) (data : list byte)
    (s : byte) (out : le_out) (strerror : Z → string) :
  load data 3 = Ret s → s ≠ x02 →
  ∃ err,
    bt_parse_le_meta_event fuel data out
    = Ret (err, set_done (if Byte.eqb s x01 then 1 else 0) out)
    ∧ match err with
      | None => s = x01
      | Some e =>
          s ≠ x01
          ∧ message strerror e
            = ("wrong event type: " ++ dec (uint8 s))%string
      end.
Proof.
  intros Hs Hs2. destruct (Byte.eqb s x01) eqn:Hs1.
  - apply byte_eqb_eq in Hs1 as ->.
    exists None. split; [by apply parse_connection_complete|done].
  - assert (s ≠ x01) by (intros ->; discriminate Hs1).
    exists (Some (WrongEventType (uint8 s))).
    split; [by apply parse_wrong_event_type|done].
Qed.

Lemma parse_other_subevents_witness :
  ∃ err,
    @bt_parse_le_meta_event abi_x86_64 0 [x04; x3e; x01; x0a] no_out
    = Ret (err, set_done (if Byte.eqb x0a x01 then 1 else 0) no_out)
    ∧ match err with
      | None => x0a = x01
      | Some e =>
          x0a ≠ x01
          ∧ message (λ _, ""%string) e
            = ("wrong event type: " ++ dec (uint8 x0a))%string
      end.
Proof.
  apply (parse_other_subevents (H:=abi_x86_64) 0 [x04; x3e; x01; x0a] x0a
           no_out (λ _, ""%string)); [reflexivity|discriminate].
Defined.

(* the walk ends where every length byte between [lo] and [end_] reads as
   a non-negative number *)
Lemma eir_walk_returns_within `{ABI} (data : list byte) (lo end_ : Z) :
  0 ≤ lo →
  (∀ i b, lo ≤ i < end_ → load data i = Ret b → char_ok b) →
  end_ ≤ Z.of_nat (length data) →
  ∀ (fuel : nat) (ptr : Z) (name : list byte),
    lo ≤ ptr → (Z.to_nat (end_ - ptr) < fuel)%nat → length name = 31%nat →
    ∃ name', eir_walk fuel data ptr end_ name = Ret name'
             ∧ length name' = 31%nat.
Proof.
  intros Hlo Hdata Hend.
  induction fuel as [|fuel IH]; intros ptr name Hptr Hfuel Hname; [lia|].
  cbn [eir_walk]. destruct (Z.ltb_spec ptr end_); [|by eauto].
  destruct (load_in_range data ptr) as (b & Hb & _); [lia|].
  rewrite Hb, bind_Ret, char_to_int_small by (apply (Hdata ptr); [lia|done]).
  pose proof (uint8_range b) as Hrange.
  destruct (Z.eqb_spec (uint8 b) 0); [by eauto|].
  destruct (Z.ltb_spec end_ (ptr + 1 + uint8 b)); [by eauto|].
  destruct (load_in_range data (ptr + 1)) as (t & -> & _); [lia|].
  rewrite bind_Ret.
  assert (∃ name', (if (char_to_int t =? EIR_NAME_SHORT)
                       || (char_to_int t =? EIR_NAME_COMPLETE)
                    then if kMaxNameLength <? uint8 b - 1 then Ret name
                         else memcpy name data (ptr + 1 + 1) (uint8 b - 1)
                    else Ret name) = Ret name'
                   ∧ length name' = 31%nat) as (name' & -> & Hname').
  { destruct (_ || _); [|by eauto]. unfold kMaxNameLength.
    destruct (Z.ltb_spec 31 (uint8 b - 1)); [by eauto|].
    unfold memcpy. destruct (Z.ltb_spec (uint8 b - 1) 0); [lia|].
    destruct (load_bytes_Ret data (ptr + 1 + 1) (uint8 b - 1))
      as (bytes & -> & Hbytes); [lia..|].
    rewrite bind_Ret, store_bytes_Ret by lia.
    eexists. split; [done|].
    rewrite !length_app, length_take, length_drop. lia. }
  rewrite bind_Ret. apply IH; [lia|lia|done].
Qed.

(** X10: a packet that holds a whole advertising report (subevent 0x02,
    EIR length [len], at least [15 + len] bytes) and whose EIR bytes all
    read as non-negative through [char*] (any bytes at all where [char]
    is unsigned) is parsed with success in at most [len + 1] turns of the
    walk: no byte outside the packet is read, the 31-byte name buffer is
    not overrun, [done] is 0, the address is that of bytes 7 to 12 and
    the RSSI is the byte after the EIR data read as a signed 8-bit
    number. *)
Theorem parse_report_is_safe `{ABI} (fuel : nat) (data : list byte)
    (len : byte) (out : le_out) :
  load data 3 = Ret x02 →
  load data 13 = Ret len →
  15 + uint8 len ≤ Z.of_nat (length data) →
  (∀ i b, 14 ≤ i < 14 + uint8 len → load data i = Ret b → char_ok b) →
  (Z.to_nat (uint8 len) < fuel)%nat →
  ∃ bdaddr name rssi_byte,
    bt_parse_le_meta_event fuel data out
    = Ret (None, {| remote_addr := Some (ba2str bdaddr);
                    remote_name := Some name;
                    rssi := int8 rssi_byte;
                    done := 0 |})
    ∧ load_bdaddr data 7 = Ret bdaddr
    ∧ load data (14 + uint8 len) = Ret rssi_byte
    ∧ length name = 31%nat
    ∧ -128 ≤ int8 rssi_byte ≤ 127.
Proof.
  intros Hs Hlen Hsize Hok Hfuel. pose proof (uint8_range len) as Hrange.
  unfold bt_parse_le_meta_event.
  change (1 + HCI_EVENT_HDR_SIZE) with 3. rewrite Hs, bind_Ret.
  change (uint8 x02 =? 1) with false. change (uint8 x02 =? 2) with true.
  cbn [negb].
  change (3 + 1 + 1 + 2) with 7. change (3 + 1 + 1 + 8) with 13.
  change (3 + 1 + 1 + 9) with 14.
  assert (∃ bdaddr, load_bdaddr data 7 = Ret bdaddr) as [bdaddr Haddr].
  { unfold load_bdaddr.
    destruct (load_in_range data 7) as (a0 & -> & _); [lia|].
    destruct (load_in_range data (7 + 1)) as (a1 & -> & _); [lia|].
    destruct (load_in_range data (7 + 2)) as (a2 & -> & _); [lia|].
    destruct (load_in_range data (7 + 3)) as (a3 & -> & _); [lia|].
    destruct (load_in_range data (7 + 4)) as (a4 & -> & _); [lia|].
    destruct (load_in_range data (7 + 5)) as (a5 & -> & _); [lia|].
    rewrite !bind_Ret. by eexists. }
  rewrite Haddr, bind_Ret, Hlen, bind_Ret.
  destruct (load_in_range data (14 + uint8 len)) as (rssi_byte & Hrssi & _);
    [lia|].
  rewrite Hrssi, bind_Ret.
  destruct (eir_walk_returns_within data 14 (14 + uint8 len) ltac:(lia) Hok
              ltac:(lia) fuel 14 (replicate (Z.to_nat kMaxNameLength) x00))
    as (name & -> & Hname); [lia|lia|done|].
  rewrite bind_Ret. exists bdaddr, name, rssi_byte.
  split_and!; try done.
  all: unfold int8; pose proof (uint8_range rssi_byte);
    destruct (uint8 rssi_byte <? 128) eqn:E;
    [apply Z.ltb_lt in E | apply Z.ltb_ge in E]; lia.
Qed.

Lemma parse_report_is_safe_witness :
  ∃ bdaddr name rssi_byte,
    @bt_parse_le_meta_event abi_x86_64 9 (s3_packet x13) no_out
    = Ret (None, {| remote_addr := Some (ba2str bdaddr);
                    remote_name := Some name;
                    rssi := int8 rssi_byte;
                    done := 0 |})
    ∧ load_bdaddr (s3_packet x13) 7 = Ret bdaddr
    ∧ load (s3_packet x13) (14 + uint8 x08) = Ret rssi_byte
    ∧ length name = 31%nat
    ∧ -128 ≤ int8 rssi_byte ≤ 127.
Proof.
  apply (parse_report_is_safe (H:=abi_x86_64) 9 (s3_packet x13) x08 no_out).
  - reflexivity.
  - reflexivity.
  - vm_compute. discriminate.
  - intros i b Hi. change (uint8 x08) with 8 in Hi.
    assert (i = 14 ∨ i = 15 ∨ i = 16 ∨ i = 17 ∨ i = 18 ∨ i = 19 ∨ i = 20
            ∨ i = 21) as Hcases by lia.
    destruct Hcases as [->|[->|[->|[->|[->|[->|[->| ->]]]]]]];
      intros [= <-]; vm_compute; discriminate.
  - vm_compute. lia.
Defined.

(* the parse of a report whose EIR data begins with a run of records *)
Lemma parse_records `{ABI} (f : nat) (rs : list eir_record)
    (tail : list byte) (plen evt_type bdaddr_type : byte) (bdaddr : bdaddr_t)
    (rssi_byte : byte) (out : le_out) :
  Forall record_ok rs →
  (length (encode_records rs ++ tail) ≤ 255)%nat →
  let data := adv_report plen evt_type bdaddr_type bdaddr
                (encode_records rs ++ tail) rssi_byte in
  bt_parse_le_meta_event (length rs + f) data out
  = name ← eir_walk f data (14 + Z.of_nat (length (encode_records rs)))
             (14 + Z.of_nat (length (encode_records rs ++ tail)))
             (foldl copy_name (replicate 31 x00) rs);
    Ret (None, {| remote_addr := Some (ba2str bdaddr);
                  remote_name := Some name;
                  rssi := int8 rssi_byte;
                  done := 0 |}).
Proof.
  intros Hok Hlen data. unfold data at 1. rewrite parse_adv_report by done.
  cbv zeta. fold data.
  pose (hdr := adv_header plen evt_type bdaddr_type bdaddr
                 (to_uint8 (Z.of_nat (length (encode_records rs ++ tail))))).
  rewrite (eir_walk_records_at f data hdr (tail ++ [rssi_byte]) 14
             (14 + Z.of_nat (length (encode_records rs)))
             (14 + Z.of_nat (length (encode_records rs ++ tail))) rs);
    [done| |done|done|done| |done].
  - unfold data, adv_report. fold hdr. by rewrite <- !app_assoc.
  - rewrite length_app. lia.
Qed.

(* leaving the loop at a length byte that is zero or reaches past the end *)
Lemma eir_walk_stop `{ABI} (f : nat) (data : list byte) (ptr end_ : Z)
    (b : byte) (name : list byte) :
  load data ptr = Ret b →
  char_to_int b = 0 ∨ end_ < ptr + 1 + char_to_int b →
  eir_walk (S f) data ptr end_ name = Ret name.
Proof.
  intros Hb Hstop. cbn [eir_walk]. destruct (ptr <? end_); [|done].
  rewrite Hb, bind_Ret. destruct (Z.eqb_spec (char_to_int b) 0); [done|].
  destruct (Z.ltb_spec end_ (ptr + 1 + char_to_int b)); [done|lia].
Qed.

Lemma load_adv_report_eir (plen evt_type bdaddr_type : byte)
    (bdaddr : bdaddr_t) (pre post : list byte) (b rssi_byte : byte) :
  load (adv_report plen evt_type bdaddr_type bdaddr (pre ++ b :: post)
          rssi_byte) (14 + Z.of_nat (length pre)) = Ret b.
Proof.
  apply (load_at _ (adv_header plen evt_type bdaddr_type bdaddr
                      (to_uint8 (Z.of_nat (length (pre ++ b :: post)))) ++ pre)
           (post ++ [rssi_byte])).
  - unfold adv_report. by rewrite <- !app_assoc.
  - rewrite length_app. cbn [adv_header length]. lia.
Qed.

(** X11: an advertising report whose EIR records hold no name record of
    at most 31 bytes is parsed into a name buffer of 31 zero bytes: the
    empty string. *)
Theorem parse_without_name `{ABI} (f : nat) (rs : list eir_record)
    (plen evt_type bdaddr_type : byte) (bdaddr : bdaddr_t) (rssi_byte : byte)
    (out : le_out) :
  Forall record_ok rs →
  (length (encode_records rs) ≤ 255)%nat →
  Forall (λ r, name_record r = false) rs →
  bt_parse_le_meta_event (S (length rs) + f)
    (adv_report plen evt_type bdaddr_type bdaddr (encode_records rs)
       rssi_byte) out
  = Ret (None, {| remote_addr := Some (ba2str bdaddr);
                  remote_name := Some (replicate 31 x00);
                  rssi := int8 rssi_byte;
                  done := 0 |})
  ∧ c_string_in (replicate 31 x00) = Ret [].
Proof.
  intros Hok Hlen Hnone. split; [|reflexivity].
  replace (S (length rs) + f)%nat with (length rs + S f)%nat by lia.
  rewrite <- (app_nil_r (encode_records rs)) at 1.
  rewrite parse_records by (rewrite ?app_nil_r; done).
  rewrite app_nil_r, eir_walk_end, bind_Ret by lia.
  by rewrite foldl_copy_name_other.
Qed.

Lemma parse_without_name_witness :
  @bt_parse_le_meta_event abi_x86_64 (S (length [ {| r_type := x01;
                                                     r_value := [x06] |} ]) + 0)
    (adv_report x0c x00 x00 (adapter_bdaddr 1)
       (encode_records [ {| r_type := x01; r_value := [x06] |} ]) xc0) no_out
  = Ret (None, {| remote_addr := Some (ba2str (adapter_bdaddr 1));
                  remote_name := Some (replicate 31 x00);
                  rssi := int8 xc0;
                  done := 0 |})
  ∧ c_string_in (replicate 31 x00) = Ret [].
Proof.
  apply (parse_without_name (H:=abi_x86_64) 0
           [ {| r_type := x01; r_value := [x06] |} ] x0c x00 x00
           (adapter_bdaddr 1) xc0 no_out).
  - repeat constructor. vm_compute. discriminate.
  - vm_compute. lia.
  - repeat constructor.
Defined.

(** X12: the walk stops at the first length byte that is zero or that
    reaches past the end of the EIR data: the records before it are
    processed as usual, and whatever follows it, name records included,
    is not looked at. *)
Theorem parse_stops_at_bad_length `{ABI} (f : nat) (rs : list eir_record)
    (b : byte) (rest : list byte) (plen evt_type bdaddr_type : byte)
    (bdaddr : bdaddr_t) (rssi_byte : byte) (out : le_out) :
  Forall record_ok rs →
  (length (encode_records rs ++ b :: rest) ≤ 255)%nat →
  uint8 b = 0 ∨ (Z.of_nat (length rest) < uint8 b ∧ char_ok b) →
  bt_parse_le_meta_event (S (length rs) + f)
    (adv_report plen evt_type bdaddr_type bdaddr
       (encode_records rs ++ b :: rest) rssi_byte) out
  = Ret (None, {| remote_addr := Some (ba2str bdaddr);
                  remote_name := Some (foldl copy_name (replicate 31 x00) rs);
                  rssi := int8 rssi_byte;
                  done := 0 |}).
Proof.
  intros Hok Hlen Hb.
  replace (S (length rs) + f)%nat with (length rs + S f)%nat by lia.
  rewrite parse_records by done.
  rewrite (eir_walk_stop f _ _ _ b); [by rewrite bind_Ret| |].
  - apply load_adv_report_eir.
  - rewrite length_app. cbn [length]. destruct Hb as [Hb|[Hb Hchar]].
    + left. assert (b = x00) as -> by (by apply uint8_inj).
      apply char_to_int_zero.
    + right. rewrite char_to_int_small by done. lia.
Qed.

Lemma parse_stops_at_bad_length_witness :
  @bt_parse_le_meta_event abi_x86_64 (S (length two_names) + 0)
    (adv_report x0c x00 x00 (adapter_bdaddr 1)
       (encode_records two_names
        ++ x00 :: encode_records [ {| r_type := x09; r_value := [x5a] |} ])
       xc0) no_out
  = Ret (None, {| remote_addr := Some (ba2str (adapter_bdaddr 1));
                  remote_name :=
                    Some (foldl copy_name (replicate 31 x00) two_names);
                  rssi := int8 xc0;
                  done := 0 |}).
Proof.
  apply (parse_stops_at_bad_length (H:=abi_x86_64) 0 two_names x00
           (encode_records [ {| r_type := x09; r_value := [x5a] |} ])
           x0c x00 x00 (adapter_bdaddr 1) xc0 no_out).
  - repeat constructor; vm_compute; discriminate.
  - vm_compute. lia.
  - left. reflexivity.
Defined.

(** X13: a name record whose value has 31 bytes, none of them zero, and
    that is the last record, fills the name buffer to its last byte: the
    buffer returned holds no terminator, and reading it as a string runs
    past its end. *)
Theorem parse_name_of_31_bytes `{ABI} (f : nat) (rs : list eir_record)
    (r : eir_record) (plen evt_type bdaddr_type : byte) (bdaddr : bdaddr_t)
    (rssi_byte : byte) (out : le_out) :
  Forall record_ok rs →
  (length (encode_records (rs ++ [r])) ≤ 255)%nat →
  is_name_type (r_type r) = true →
  length (r_value r) = 31%nat →
  x00 ∉ r_value r →
  bt_parse_le_meta_event (S (length (rs ++ [r])) + f)
    (adv_report plen evt_type bdaddr_type bdaddr (encode_records (rs ++ [r]))
       rssi_byte) out
  = Ret (None, {| remote_addr := Some (ba2str bdaddr);
                  remote_name := Some (r_value r);
                  rssi := int8 rssi_byte;
                  done := 0 |})
  ∧ c_string_in (r_value r) = Fault.
Proof.
  intros Hok Hlen Htype Hv Hnz. split.
  - replace (S (length (rs ++ [r])) + f)%nat
      with (length (rs ++ [r]) + S f)%nat by lia.
    rewrite <- (app_nil_r (encode_records (rs ++ [r]))) at 1.
    rewrite parse_records; rewrite ?app_nil_r; [|..|done].
    + rewrite eir_walk_end, bind_Ret by lia.
      rewrite foldl_copy_name_last; [|unfold name_record|done].
      * unfold overlay. rewrite drop_ge, app_nil_r; [done|].
        rewrite length_foldl_copy_name by done. lia.
      * rewrite Htype, Hv. done.
    + apply Forall_app. split; [done|]. repeat constructor.
      unfold record_ok, CHAR_MAX. rewrite Hv. destruct char_signed; lia.
  - unfold c_string_in. rewrite strlen_no_nul by done.
    case_decide; [lia|done].
Qed.

Lemma parse_name_of_31_bytes_witness :
  @bt_parse_le_meta_event abi_x86_64
    (S (length ([] ++ [ {| r_type := x09; r_value := replicate 31 x41 |} ]))
     + 0)
    (adv_report x0c x00 x00 (adapter_bdaddr 1)
       (encode_records
          ([] ++ [ {| r_type := x09; r_value := replicate 31 x41 |} ]))
       xc0) no_out
  = Ret (None, {| remote_addr := Some (ba2str (adapter_bdaddr 1));
                  remote_name := Some (replicate 31 x41);
                  rssi := int8 xc0;
                  done := 0 |})
  ∧ c_string_in (replicate 31 x41) = Fault.
Proof.
  apply (parse_name_of_31_bytes (H:=abi_x86_64) 0 []
           {| r_type := x09; r_value := replicate 31 x41 |} x0c x00 x00
           (adapter_bdaddr 1) xc0 no_out).
  - constructor.
  - vm_compute. lia.
  - reflexivity.
  - reflexivity.
  - vm_compute. repeat (apply not_elem_of_cons; split; [discriminate|]).
    apply not_elem_of_nil.
Defined.



(** ** The advertising commands *)

Lemma to_uint8_mod (z z' : Z) : z mod 256 = z' mod 256 → to_uint8 z = to_uint8 z'.
Proof. intros Hz. unfold to_uint8. by rewrite Hz. Qed.


(** X16: [bt_enable_le_advertising] sends the low 8 bits of [enable] as
    the one parameter byte: two values that agree modulo 256 give the
    same request and the same result, so that 256 disables advertising
    as 0 does. *)
Theorem enable_advertising_low_byte (k : Kernel) (dd enable enable' : Z)
    (h : history) :
  enable mod 256 = enable' mod 256 →
  bt_enable_le_advertising k dd enable h
  = bt_enable_le_advertising k dd enable' h
  ∧ ∃ err r,
      bt_enable_le_advertising k dd enable h
      = Ret (err, h ++ [EvHciSendReq dd OGF_LE_CTL OCF_LE_SET_ADVERTISE_ENABLE
                          [to_uint8 (enable mod 256)] r]).
Proof.
  intros Hmod. unfold bt_enable_le_advertising.
  rewrite (to_uint8_mod enable enable' Hmod).
  split; [done|].
  rewrite (to_uint8_mod (enable mod 256) enable')
    by (by rewrite Z.mod_mod, Hmod).
  change (take _ [to_uint8 enable']) with [to_uint8 enable'].
  destruct (k_hci_send_req k h dd OGF_LE_CTL OCF_LE_SET_ADVERTISE_ENABLE
              [to_uint8 enable']) as [r status].
  destruct (ret r <? 0); by eauto.
Qed.

Lemma enable_advertising_low_byte_witness :
  bt_enable_le_advertising no_channel 4 256 []
  = bt_enable_le_advertising no_channel 4 0 []
  ∧ ∃ err r,
      bt_enable_le_advertising no_channel 4 256 []
      = Ret (err, [] ++ [EvHciSendReq 4 OGF_LE_CTL OCF_LE_SET_ADVERTISE_ENABLE
                           [to_uint8 (256 mod 256)] r]).
Proof.
  apply (enable_advertising_low_byte no_channel 4 256 0 []). reflexivity.
Defined.

(** X17: with a payload of at most 26 bytes,
    [bt_set_le_advertising_payload] sends one request of 32 parameter
    bytes and succeeds exactly when [hci_send_req] returns a non-negative
    value; otherwise its error carries the status byte and the errno of
    that request. *)
Theorem set_payload_result (k : Kernel) (dd : Z) (adv_payload : list byte)
    (h : history) :
  (strlen adv_payload ≤ 26)%nat →
  ∃ cparam r status,
    length cparam = 32%nat
    ∧ k_hci_send_req k h dd OGF_LE_CTL OCF_LE_SET_ADVERTISING_DATA cparam
      = (r, status)
    ∧ bt_set_le_advertising_payload k dd adv_payload h
      = Ret (if ret r <? 0
             then Some (CommandFailed dd (uint8 status) (errno r)) else None,
             h ++ [EvHciSendReq dd OGF_LE_CTL OCF_LE_SET_ADVERTISING_DATA
                     cparam r]).
Proof.
  intros Hn. unfold bt_set_le_advertising_payload, kMaxLEPayloadSize.
  destruct (Z.ltb_spec 26 (Z.of_nat (strlen adv_payload))); [lia|].
  rewrite fill_adv_data_cp_spec, bind_Ret by done.
  set (cp := {| cp_length := _ |}).
  assert (length (cp_bytes cp) = 32%nat) as Hlen.
  { simpl. rewrite length_app, length_replicate, length_c_chars. lia. }
  change (Z.to_nat LE_SET_ADVERTISING_DATA_CP_SIZE) with 32%nat.
  rewrite <- Hlen, firstn_all.
  destruct (k_hci_send_req k h dd OGF_LE_CTL OCF_LE_SET_ADVERTISING_DATA
              (cp_bytes cp)) as [r status] eqn:Hreq.
  exists (cp_bytes cp), r, status. split; [done|]. split; [done|].
  by destruct (ret r <? 0).
Qed.

Lemma set_payload_result_witness :
  ∃ cparam r status,
    length cparam = 32%nat
    ∧ k_hci_send_req dead_controller [] 4 OGF_LE_CTL
        OCF_LE_SET_ADVERTISING_DATA cparam = (r, status)
    ∧ bt_set_le_advertising_payload dead_controller 4
        (list_byte_of_string "Alpha") []
      = Ret (if ret r <? 0
             then Some (CommandFailed 4 (uint8 status) (errno r)) else None,
             [] ++ [EvHciSendReq 4 OGF_LE_CTL OCF_LE_SET_ADVERTISING_DATA
                      cparam r]).
Proof.
  apply (set_payload_result dead_controller 4 (list_byte_of_string "Alpha") []).
  vm_compute. lia.
Defined.

(** ** bt_accept and bt_connect *)

(** X18: [bt_accept] writes the value returned by [accept] into [fd]
    whether it failed or not; it fails exactly when that value is
    negative and then leaves the address location alone; on success the
    address written has 17 characters, so that with its terminator it
    fills the 18 bytes malloc'ed for it. *)
Theorem accept_outputs (s : SocketLayer) (sock : Z) (io io' : accept_io)
    (h h' : list socket_event) (err : option socket_error) :
  bt_accept s sock io h = Ret (err, io', h') →
  ∃ r peer,
    h' = h ++ [EvAccept sock r peer]
    ∧ fd io' = ret r
    ∧ match err with
      | None =>
          0 ≤ fd io'
          ∧ remote_address io' = Some (ba2str peer)
          ∧ Z.of_nat (String.length (ba2str peer)) + 1 = kMaxAddrStrSize
      | Some e =>
          fd io' < 0
          ∧ e = AcceptError sock (errno r)
          ∧ remote_address io' = remote_address io
      end.
Proof.
  unfold bt_accept, asprintf_to.
  destruct (s_accept s h sock) as [r peer]. cbn [fd remote_address].
  destruct (Z.ltb_spec (ret r) 0); intros [= <- <- <-]; exists r, peer;
    cbn [fd remote_address]; split_and!; try done; try lia.
Qed.

Lemma accept_outputs_witness :
  ∃ r peer,
    [EvAccept 7 (sys_ok 5) (adapter_bdaddr 2)] = [] ++ [EvAccept 7 r peer]
    ∧ fd {| fd := 5; remote_address := Some (ba2str (adapter_bdaddr 2)) |}
      = ret r
    ∧ 0 ≤ fd {| fd := 5; remote_address := Some (ba2str (adapter_bdaddr 2)) |}
    ∧ remote_address
        {| fd := 5; remote_address := Some (ba2str (adapter_bdaddr 2)) |}
      = Some (ba2str peer)
    ∧ Z.of_nat (String.length (ba2str peer)) + 1 = kMaxAddrStrSize.
Proof.
  exact (accept_outputs one_peer 7 {| fd := 0; remote_address := None |}
           {| fd := 5; remote_address := Some (ba2str (adapter_bdaddr 2)) |}
           [] [EvAccept 7 (sys_ok 5) (adapter_bdaddr 2)] None eq_refl).
Defined.

(** X19: [bt_connect] makes one [connect], on the low 8 bits of the
    channel passed in, and fails exactly when it returns a negative
    value; the error then names the address, the channel as passed, the
    socket and the errno. *)
Theorem connect_channel_low_byte (s : SocketLayer) (sock : Z)
    (remote_address : string) (remote_channel : Z) (h : list socket_event) :
  ∃ r,
    r = s_connect s h sock remote_address (remote_channel mod 256)
    ∧ bt_connect s sock remote_address remote_channel h
      = Ret (if ret r <? 0
             then Some (ConnectError remote_address remote_channel sock
                          (errno r))
             else None,
             h ++ [EvConnect sock remote_address (remote_channel mod 256) r]).
Proof.
  eexists. split; [reflexivity|]. unfold bt_connect, asprintf_to.
  rewrite uint8_to_uint8. by destruct (ret _ <? 0).
Qed.

(** ** The channels bt_bind tries *)

Lemma bind_targets_app (l1 l2 : list event) :
  bind_targets (l1 ++ l2) = bind_targets l1 ++ bind_targets l2.
Proof. apply omap_app. Qed.

(* with the address given: a search tries channels 1 to 29 and leaves the
   one that went through, or 30; a channel passed in is tried alone and
   left in place *)
Lemma bt_bind_addr_channels (f : nat) (k : Kernel) (sock : Z) (addr : string)
    (c : Z) (h : history) :
  ∃ err c' evs,
    bt_bind (30 + f) k sock {| local_address := Some addr; channel := c |} h
    = Ret (err, {| local_address := Some addr; channel := c' |}, h ++ evs)
    ∧ (c = 0 →
       Forall (λ t, 1 ≤ t.2 ≤ 29) (bind_targets evs)
       ∧ match err with
         | None => 1 ≤ c' ≤ 29
         | Some _ => c' = 30
         end)
    ∧ (c ≠ 0 → c' = c ∧ bind_targets evs = [(addr, c mod 256)]).
Proof.
  change (30 + f)%nat with (S (S (28 + f))).
  destruct (decide (c = 0)) as [->|Hc].
  - rewrite bt_bind_channels.
    assert (∀ n, (n ≤ 29)%nat →
              Forall (λ t : string * Z, 1 ≤ t.2 ≤ 29)
                (bind_targets (bind_attempts k sock addr h 1 n))) as Hrange.
    { intros n Hn. rewrite bind_targets_attempts. apply Forall_fmap.
      apply Forall_forall. intros i Hi%elem_of_seq. simpl. lia. }
    destruct (channel_loop_spec k sock addr (28 + f) 29 1 h (S (S (28 + f))))
      as [(n & Hn & _ & _ & ->)|[_ ->]]; [done|done|lia| |].
    + eexists _, _, _. split; [done|]. split; [|done].
      intros _. split; [apply Hrange|]; lia.
    + eexists _, _, _. split; [done|]. split; [|done].
      intros _. split; [by apply Hrange|done].
  - rewrite bt_bind_pair by done. cbv zeta.
    eexists _, _, [_]. split; [done|]. split; [done|].
    intros _. split; [done|]. unfold bind_targets. simpl.
    by rewrite uint8_to_uint8.
Qed.

(* the device loop entered with the channel 0, or with the 30 an earlier
   search left *)
Lemma device_loop_search_channels (k : Kernel) (sock : Z) (f : nat) (m : nat) :
  ∀ (dev_id dd : Z) name io h fuel,
    0 ≤ dev_id → dev_id + Z.of_nat m = kMaxDevices → (m < fuel)%nat →
    channel io = 0 ∨ channel io = 30 →
    ∃ err io' evs,
      device_loop k (bt_bind (30 + f) k sock) fuel dev_id dd name io h
      = Ret (err, io', h ++ evs)
      ∧ Forall (λ t, 1 ≤ t.2 ≤ 30) (bind_targets evs)
      ∧ match err with
        | None => 1 ≤ channel io' ≤ 30
        | Some _ => channel io' = 0 ∨ channel io' = 30
        end.
Proof.
  unfold kMaxDevices.
  induction m as [|m IH]; intros dev_id dd name io h fuel Hid Hm Hfuel Hch;
    (destruct fuel as [|fuel]; [lia|]); cbn [device_loop]; unfold kMaxDevices.
  - destruct (Z.ltb_spec dev_id 5); [lia|].
    exists (Some NoDeviceAvailable), io, []. rewrite app_nil_r.
    split; [done|]. split; [constructor|done].
  - destruct (Z.ltb_spec dev_id 5); [|lia].
    destruct (bt_open_device_nonneg k dev_id
                {| oo_dd := dd; oo_name := name;
                   oo_local_address := local_address io |} h Hid)
      as (err & oo & evs & -> & Hnobind & Haddr).
    rewrite bind_Ret. destruct err as [e|].
    { destruct (IH (dev_id + 1) (oo_dd oo) (oo_name oo)
                  {| local_address := oo_local_address oo;
                     channel := channel io |} (h ++ evs) fuel)
        as (err' & io' & evs' & -> & Hev' & Herr'); [lia..|done|].
      exists err', io', (evs ++ evs'). rewrite app_assoc. split; [done|].
      by rewrite bind_targets_app, Hnobind. }
    destruct Haddr as [addr Haddr].
    set (e_close := EvHciCloseDev (oo_dd oo)
                      (k_hci_close_dev k (h ++ evs) (oo_dd oo))).
    assert (∀ B (g : history → outcome B),
              bt_close_device k (oo_dd oo) (h ++ evs) ≫= (λ '(_, h0), g h0)
              = g ((h ++ evs) ++ [e_close])) as ->.
    { intros B g. unfold bt_close_device, asprintf. fold e_close.
      by destruct (ret _ <? 0). }
    cbn [local_address]. rewrite Haddr.
    destruct (bt_bind_addr_channels f k sock addr (channel io)
                ((h ++ evs) ++ [e_close]))
      as (err & c' & evs_b & -> & Hzero & Hgiven).
    rewrite bind_Ret.
    assert (Forall (λ t : string * Z, 1 ≤ t.2 ≤ 30)
              (bind_targets (evs ++ [e_close] ++ evs_b))
            ∧ match err with
              | None => 1 ≤ c' ≤ 30
              | Some _ => c' = 30
              end) as [Hev Hc'].
    { rewrite !bind_targets_app, Hnobind. cbn [app].
      change (bind_targets [e_close]) with (@nil (string * Z)). cbn [app].
      destruct Hch as [Hch|Hch].
      - destruct (Hzero Hch) as [Hev Herr]. split.
        + eapply Forall_impl; [exact Hev|]. simpl. intros. lia.
        + destruct err; lia.
      - destruct Hgiven as [-> ->]; [lia|]. rewrite Hch. split.
        + apply Forall_singleton. change (30 `mod` 256) with 30. simpl. lia.
        + destruct err; lia. }
    destruct err as [e|].
    + destruct (IH (dev_id + 1) (oo_dd oo) (oo_name oo)
                  {| local_address := Some addr; channel := c' |}
                  (((h ++ evs) ++ [e_close]) ++ evs_b) fuel)
        as (err' & io' & evs' & -> & Hev' & Herr'); [lia..|by right|].
      exists err', io', ((evs ++ [e_close] ++ evs_b) ++ evs').
      split; [by rewrite <- !app_assoc|].
      split; [|done]. rewrite bind_targets_app. by apply Forall_app.
    + exists None, {| local_address := Some addr; channel := c' |},
        (evs ++ [e_close] ++ evs_b).
      split; [by rewrite <- !app_assoc|]. done.
Qed.

(** X20: called with neither an address nor a channel, [bt_bind] binds
    on no channel outside 1 to 30, and the channel it writes back on
    success lies between 1 and 30. *)
Theorem bind_search_channels (f : nat) (k : Kernel) (sock : Z) (h : history) :
  ∃ err io' evs,
    bt_bind (31 + f) k sock {| local_address := None; channel := 0 |} h
    = Ret (err, io', h ++ evs)
    ∧ Forall (λ t, 1 ≤ t.2 ≤ 30) (bind_targets evs)
    ∧ match err with
      | None => 1 ≤ channel io' ≤ 30
      | Some _ => channel io' = 0 ∨ channel io' = 30
      end.
Proof.
  change (31 + f)%nat with (S (30 + f)). rewrite bt_bind_devices.
  apply (device_loop_search_channels k sock f 5); [done|done|lia|by left].
Qed.

(* the device loop entered with a channel other than 0 *)
Lemma device_loop_given_channel (k : Kernel) (sock : Z) (f : nat) (m : nat) :
  ∀ (dev_id dd : Z) name io h fuel,
    0 ≤ dev_id → dev_id + Z.of_nat m = kMaxDevices → (m < fuel)%nat →
    channel io ≠ 0 →
    ∃ err io' evs,
      device_loop k (bt_bind (30 + f) k sock) fuel dev_id dd name io h
      = Ret (err, io', h ++ evs)
      ∧ channel io' = channel io
      ∧ Forall (λ t, t.2 = channel io mod 256) (bind_targets evs)
      ∧ (length (bind_targets evs) ≤ m)%nat.
Proof.
  unfold kMaxDevices.
  induction m as [|m IH]; intros dev_id dd name io h fuel Hid Hm Hfuel Hch;
    (destruct fuel as [|fuel]; [lia|]); cbn [device_loop]; unfold kMaxDevices.
  - destruct (Z.ltb_spec dev_id 5); [lia|].
    exists (Some NoDeviceAvailable), io, []. rewrite app_nil_r.
    split; [done|]. split; [done|]. split; [constructor|done].
  - destruct (Z.ltb_spec dev_id 5); [|lia].
    destruct (bt_open_device_nonneg k dev_id
                {| oo_dd := dd; oo_name := name;
                   oo_local_address := local_address io |} h Hid)
      as (err & oo & evs & -> & Hnobind & Haddr).
    rewrite bind_Ret. destruct err as [e|].
    { destruct (IH (dev_id + 1) (oo_dd oo) (oo_name oo)
                  {| local_address := oo_local_address oo;
                     channel := channel io |} (h ++ evs) fuel)
        as (err' & io' & evs' & -> & Hc' & Hev' & Hn'); [lia..|done|].
      exists err', io', (evs ++ evs'). rewrite app_assoc. split; [done|].
      rewrite bind_targets_app, Hnobind. cbn [app channel] in *.
      split_and!; [done|done|lia]. }
    destruct Haddr as [addr Haddr].
    set (e_close := EvHciCloseDev (oo_dd oo)
                      (k_hci_close_dev k (h ++ evs) (oo_dd oo))).
    assert (∀ B (g : history → outcome B),
              bt_close_device k (oo_dd oo) (h ++ evs) ≫= (λ '(_, h0), g h0)
              = g ((h ++ evs) ++ [e_close])) as ->.
    { intros B g. unfold bt_close_device, asprintf. fold e_close.
      by destruct (ret _ <? 0). }
    cbn [local_address]. rewrite Haddr.
    destruct (bt_bind_addr_channels f k sock addr (channel io)
                ((h ++ evs) ++ [e_close]))
      as (err & c' & evs_b & -> & _ & Hgiven).
    destruct (Hgiven Hch) as [-> Htargets]. rewrite bind_Ret.
    assert (bind_targets (evs ++ [e_close] ++ evs_b)
            = [(addr, channel io mod 256)]) as Hone.
    { rewrite !bind_targets_app, Hnobind, Htargets. done. }
    destruct err as [e|].
    + destruct (IH (dev_id + 1) (oo_dd oo) (oo_name oo)
                  {| local_address := Some addr; channel := channel io |}
                  (((h ++ evs) ++ [e_close]) ++ evs_b) fuel)
        as (err' & io' & evs' & -> & Hc' & Hev' & Hn'); [lia..|done|].
      exists err', io', ((evs ++ [e_close] ++ evs_b) ++ evs').
      split; [by rewrite <- !app_assoc|].
      rewrite bind_targets_app, Hone. cbn [app channel length] in *.
      split_and!; [done| |lia]. by constructor.
    + exists None, {| local_address := Some addr; channel := channel io |},
        (evs ++ [e_close] ++ evs_b).
      split; [by rewrite <- !app_assoc|]. rewrite Hone. cbn [channel length].
      split_and!; [done| |lia]. by repeat constructor.
Qed.

(** X21: called without an address but with a channel other than 0,
    [bt_bind] leaves the channel as passed, whether it succeeds or not,
    and makes at most five binds, one for each device that opens, all on
    the low 8 bits of that channel. *)
Theorem bind_given_channel (f : nat) (k : Kernel) (sock c : Z) (h : history) :
  c ≠ 0 →
  ∃ err io' evs,
    bt_bind (31 + f) k sock {| local_address := None; channel := c |} h
    = Ret (err, io', h ++ evs)
    ∧ channel io' = c
    ∧ Forall (λ t, t.2 = c mod 256) (bind_targets evs)
    ∧ (length (bind_targets evs) ≤ 5)%nat.
Proof.
  intros Hc. change (31 + f)%nat with (S (30 + f)). rewrite bt_bind_devices.
  apply (device_loop_given_channel k sock f 5 0 0 None
           {| local_address := None; channel := c |}); [done|done|lia|done].
Qed.

Lemma bind_given_channel_witness :
  ∃ err io' evs,
    bt_bind (31 + 0) second_adapter_channel_5 7
      {| local_address := None; channel := 5 |} []
    = Ret (err, io', [] ++ evs)
    ∧ channel io' = 5
    ∧ Forall (λ t, t.2 = 5 mod 256) (bind_targets evs)
    ∧ (length (bind_targets evs) ≤ 5)%nat.
Proof.
  apply (bind_given_channel 0 second_adapter_channel_5 7 5 []). discriminate.
Defined.
